(** * Waypoint updater: a shallow embedding of
      [ros/src/waypoint_updater/waypoint_updater.py]

    The node keeps the latest vehicle pose, the course map (base
    waypoints), a 2D copy of the map's coordinates with a nearest-neighbour
    index over it, and the index of the stop line.  Fifty times a second it
    localises the vehicle on the map and publishes the next
    [LOOKAHEAD_WPS] waypoints.

    Conventions of the embedding:
    - Python [int]s are [Z]; Python [float]s are idealised as real numbers
      [R] ([math.sqrt] keeps its domain error on negative arguments):
      rounding and overflow are not modelled;
    - ROS messages are records, one module per message type, with the field
      names of the message definitions;
    - a method of [WaypointUpdater] is a computation in the monad [M]: it
      receives the object's attributes, may update them, and ends either
      with a value or with a raised exception; attribute updates made
      before a raise persist, as they do in Python;
    - [scipy.spatial.KDTree] is an external library: it is represented by
      its contract (nearest point in the plane). *)

From Stdlib Require Import Reals Lra ZArith Lia List String Bool.
Import ListNotations.

Local Open Scope Z_scope.

(** ** Exceptions and fallible results *)

Inductive exn : Type :=
| NameError
| AttributeError
| TypeError
| IndexError
| ValueError
| ZeroDivisionError.

Inductive result (A : Type) : Type :=
| Ok (a : A)
| Raise (e : exn).

Arguments Ok {A} a.
Arguments Raise {A} e.

Definition rbind {A B : Type} (r : result A) (k : A -> result B) : result B :=
  match r with
  | Ok a => k a
  | Raise e => Raise e
  end.

Declare Scope result_scope.
Delimit Scope result_scope with result.
Notation "x <~ c ;; k" := (rbind c (fun x => k))
  (at level 61, c at next level, right associativity) : result_scope.

(** ** ROS message types *)

Module Header.
Record t : Type := mk { seq : Z; stamp : Z * Z; frame_id : string }.
Definition default : t := mk 0 (0, 0) EmptyString.
End Header.

Module Point.
Record t : Type := mk { x : R; y : R; z : R }.
Definition default : t := mk 0 0 0.
End Point.

Module Quaternion.
Record t : Type := mk { x : R; y : R; z : R; w : R }.
Definition default : t := mk 0 0 0 0.
End Quaternion.

Module Pose.
Record t : Type := mk { position : Point.t; orientation : Quaternion.t }.
Definition default : t := mk Point.default Quaternion.default.
End Pose.

Module PoseStamped.
Record t : Type := mk { header : Header.t; pose : Pose.t }.
Definition default : t := mk Header.default Pose.default.
End PoseStamped.

Module Vector3.
Record t : Type := mk { x : R; y : R; z : R }.
Definition default : t := mk 0 0 0.
End Vector3.

Module Twist.
Record t : Type := mk { linear : Vector3.t; angular : Vector3.t }.
Definition default : t := mk Vector3.default Vector3.default.
End Twist.

Module TwistStamped.
Record t : Type := mk { header : Header.t; twist : Twist.t }.
Definition default : t := mk Header.default Twist.default.
End TwistStamped.

Module Waypoint.
Record t : Type := mk { pose : PoseStamped.t; twist : TwistStamped.t }.
(** [Waypoint()] *)
Definition default : t := mk PoseStamped.default TwistStamped.default.
(** [wp.pose.pose.position] *)
Definition position (wp : t) : Point.t := Pose.position (PoseStamped.pose (pose wp)).
(** [wp.twist.twist.linear.x] *)
Definition linear_x (wp : t) : R :=
  Vector3.x (Twist.linear (TwistStamped.twist (twist wp))).
(** [p.pose = v] *)
Definition set_pose (p : t) (v : PoseStamped.t) : t := mk v (twist p).
(** [p.twist.twist.linear.x = v] *)
Definition set_linear_x (p : t) (v : R) : t :=
  let ts := twist p in
  let tw := TwistStamped.twist ts in
  let lin := Twist.linear tw in
  mk (pose p)
     (TwistStamped.mk (TwistStamped.header ts)
        (Twist.mk (Vector3.mk v (Vector3.y lin) (Vector3.z lin)) (Twist.angular tw))).
End Waypoint.

Module Lane.
Record t : Type := mk { header : Header.t; waypoints : list Waypoint.t }.
(** [Lane()] *)
Definition default : t := mk Header.default [].
End Lane.

(** ** The Python operations the node uses *)

Module Py.

(** [len(l)] *)
Definition len {A : Type} (l : list A) : Z := Z.of_nat (List.length l).

(** [l[i]]: a negative index counts from the end; out of range raises. *)
Definition getitem {A : Type} (l : list A) (i : Z) : result A :=
  let j := if i <? 0 then i + len l else i in
  if (j <? 0) || (len l <=? j) then Raise IndexError
  else match nth_error l (Z.to_nat j) with
       | Some a => Ok a
       | None => Raise IndexError
       end.

(** A slice bound: negative bounds count from the end, and every bound is
    clipped to [0, len]. *)
Definition clip (n i : Z) : Z :=
  if i <? 0 then Z.max (i + n) 0 else Z.min i n.

(** [l[lo:hi]]; slicing never raises. *)
Definition slice {A : Type} (l : list A) (lo hi : Z) : list A :=
  let a := clip (len l) lo in
  let b := clip (len l) hi in
  firstn (Z.to_nat (b - a)) (skipn (Z.to_nat a) l).

(** [range(a, b)] *)
Definition range (a b : Z) : list Z :=
  map (fun k => a + Z.of_nat k) (List.seq 0 (Z.to_nat (b - a))).

(** [enumerate(l)] *)
Definition enumerate {A : Type} (l : list A) : list (Z * A) :=
  combine (range 0 (len l)) l.

(** [a % b]: the floor modulus (the sign of the result is the divisor's). *)
Definition mod_ (a b : Z) : result Z :=
  if b =? 0 then Raise ZeroDivisionError else Ok (a mod b).

(** [math.sqrt(v)]: a domain error on negative arguments. *)
Definition math_sqrt (v : R) : result R :=
  if Rlt_dec v 0 then Raise ValueError else Ok (sqrt v).

(** [min(a, b)]: the first argument is kept unless the second is smaller. *)
Definition min (a b : R) : R := if Rlt_dec b a then b else a.

(** Truth value of a list-or-None attribute: [None] and [[]] are false. *)
Definition falsy_list {A : Type} (o : option (list A)) : bool :=
  match o with
  | None => true
  | Some [] => true
  | Some (_ :: _) => false
  end.

End Py.

(** ** [scipy.spatial.KDTree], by its contract

    [KDTree(data)] refuses an empty data set (it needs an n-by-m array);
    [tree.query(q, 1)] returns the pair (distance, index) of the data point
    nearest to [q].  Nearest is decided on squared distances, which orders
    points as the distances do.  Of several nearest points the scan below
    returns the one with the lowest index, as the specification asks of its
    index; scipy promises no particular one, and no theorem of this file
    depends on which of them is returned. *)

Module KDTree.

Record t : Type := mk { data : list (R * R) }.

Definition build (pts : list (R * R)) : result t :=
  match pts with
  | [] => Raise ValueError
  | _ :: _ => Ok (mk pts)
  end.

Definition sqdist (q p : R * R) : R :=
  ((fst q - fst p) * (fst q - fst p) + (snd q - snd p) * (snd q - snd p))%R.

(** Scan of the points from position [i] on; [(bd, bi)] is the best squared
    distance so far and where it was seen. *)
Fixpoint nearest (q : R * R) (pts : list (R * R)) (i : Z) (bd : R) (bi : Z) : R * Z :=
  match pts with
  | [] => (bd, bi)
  | p :: rest =>
      if Rlt_dec (sqdist q p) bd
      then nearest q rest (i + 1) (sqdist q p) i
      else nearest q rest (i + 1) bd bi
  end.

Definition query (tree : t) (q : R * R) : R * Z :=
  match data tree with
  | [] => (0%R, 0)
  | p :: rest =>
      let '(bd, bi) := nearest q rest 1 (sqdist q p) 0 in (sqrt bd, bi)
  end.

End KDTree.

(** ** The node object and its monad *)

Record WaypointUpdater : Type := mkWaypointUpdater {
  final_waypoints_pub : list Lane.t;   (* messages published so far, oldest first *)
  stopline_wp_idx : Z;
  pose : option PoseStamped.t;
  base_waypoints : option Lane.t;
  waypoints_2d : option (list (R * R));
  waypoint_tree : option KDTree.t
}.

Definition M (A : Type) : Type := WaypointUpdater -> WaypointUpdater * result A.

Definition ret {A : Type} (a : A) : M A := fun self => (self, Ok a).

Definition bind {A B : Type} (c : M A) (k : A -> M B) : M B :=
  fun self =>
    match c self with
    | (self', Ok a) => k a self'
    | (self', Raise e) => (self', Raise e)
    end.

Definition raise {A : Type} (e : exn) : M A := fun self => (self, Raise e).

Definition lift {A : Type} (r : result A) : M A := fun self => (self, r).

(** Reading an attribute of [self]. *)
Definition attr {A : Type} (f : WaypointUpdater -> A) : M A :=
  fun self => (self, Ok (f self)).

(** Reading an attribute and using it as an object: [None] has no
    attributes, and cannot be subscripted. *)
Definition attr_of {A : Type} (f : WaypointUpdater -> option A) (e : exn) : M A :=
  fun self =>
    match f self with
    | Some a => (self, Ok a)
    | None => (self, Raise e)
    end.

Definition set_stopline_wp_idx (v : Z) : M unit :=
  fun self =>
    (mkWaypointUpdater (final_waypoints_pub self) v (pose self) (base_waypoints self)
       (waypoints_2d self) (waypoint_tree self), Ok tt).

Definition set_pose (v : option PoseStamped.t) : M unit :=
  fun self =>
    (mkWaypointUpdater (final_waypoints_pub self) (stopline_wp_idx self) v
       (base_waypoints self) (waypoints_2d self) (waypoint_tree self), Ok tt).

Definition set_base_waypoints (v : option Lane.t) : M unit :=
  fun self =>
    (mkWaypointUpdater (final_waypoints_pub self) (stopline_wp_idx self) (pose self) v
       (waypoints_2d self) (waypoint_tree self), Ok tt).

Definition set_waypoints_2d (v : option (list (R * R))) : M unit :=
  fun self =>
    (mkWaypointUpdater (final_waypoints_pub self) (stopline_wp_idx self) (pose self)
       (base_waypoints self) v (waypoint_tree self), Ok tt).

Definition set_waypoint_tree (v : option KDTree.t) : M unit :=
  fun self =>
    (mkWaypointUpdater (final_waypoints_pub self) (stopline_wp_idx self) (pose self)
       (base_waypoints self) (waypoints_2d self) v, Ok tt).

(** [self.final_waypoints_pub.publish(lane)] *)
Definition publish (lane : Lane.t) : M unit :=
  fun self =>
    (mkWaypointUpdater (final_waypoints_pub self ++ [lane]) (stopline_wp_idx self)
       (pose self) (base_waypoints self) (waypoints_2d self) (waypoint_tree self), Ok tt).

Declare Scope py_scope.
Delimit Scope py_scope with py.
Notation "x <- c ;; k" := (bind c (fun x => k))
  (at level 61, c at next level, right associativity) : py_scope.
Notation "c ;; k" := (bind c (fun _ => k))
  (at level 61, right associativity) : py_scope.

(** The attributes as [__init__] leaves them, before it enters [loop]. *)
Definition init : WaypointUpdater :=
  mkWaypointUpdater [] (-1) None None None None.

(** ** The methods of [WaypointUpdater] *)

(** [np.array(a) - np.array(b)] and [np.dot] on coordinate pairs. *)
Definition np_sub (a b : R * R) : R * R := ((fst a - fst b)%R, (snd a - snd b)%R).
Definition np_dot (a b : R * R) : R := (fst a * fst b + snd a * snd b)%R.

(** The closest waypoint in front of the car: the nearest map point, or its
    successor when the car is already past the hyperplane through it. *)
Definition get_closest_waypoint_idx : M Z :=
  (msg <- attr_of pose AttributeError ;;
   let x := Point.x (Pose.position (PoseStamped.pose msg)) in
   msg <- attr_of pose AttributeError ;;
   let y := Point.y (Pose.position (PoseStamped.pose msg)) in
   tree <- attr_of waypoint_tree AttributeError ;;
   let closest_idx := snd (KDTree.query tree (x, y)) in
   w2d <- attr_of waypoints_2d TypeError ;;
   closest_coord <- lift (Py.getitem w2d closest_idx) ;;
   w2d <- attr_of waypoints_2d TypeError ;;
   prev_coord <- lift (Py.getitem w2d (closest_idx - 1)) ;;
   let cl_vect := closest_coord in
   let prev_vect := prev_coord in
   let pos_vect := (x, y) in
   let val := np_dot (np_sub cl_vect prev_vect) (np_sub pos_vect cl_vect) in
   if Rlt_dec 0 val
   then (w2d <- attr_of waypoints_2d TypeError ;;
         lift (Py.mod_ (closest_idx + 1) (Py.len w2d)))
   else ret closest_idx)%py.

(** The straight-line distance [dl] of [distance]. *)
Definition dl (a b : Point.t) : result R :=
  Py.math_sqrt ((Point.x a - Point.x b) * (Point.x a - Point.x b)
                + (Point.y a - Point.y b) * (Point.y a - Point.y b)
                + (Point.z a - Point.z b) * (Point.z a - Point.z b))%R.

(** The body of the [for] loop of [distance], over the remaining values of
    [range(wp1, wp2+1)]; [dist] and [wp1] are the loop-carried variables. *)
Fixpoint distance_loop (waypoints : list Waypoint.t) (idxs : list Z) (dist : R) (wp1 : Z)
  : result R :=
  match idxs with
  | [] => Ok dist
  | i :: rest =>
      (a <~ Py.getitem waypoints wp1 ;;
       b <~ Py.getitem waypoints i ;;
       d <~ dl (Waypoint.position a) (Waypoint.position b) ;;
       distance_loop waypoints rest (dist + d)%R i)%result
  end.

Definition distance (waypoints : list Waypoint.t) (wp1 wp2 : Z) : result R :=
  distance_loop waypoints (Py.range wp1 (wp2 + 1)) 0%R wp1.

Module Tunable.
Section Constants.

(** The module-level constants of the source, and the number of waypoints
    the stop point is moved back from the stop line (a literal in
    [decelerate_waypoints]). *)
Variable LOOKAHEAD_WPS : Z.
Variable MAX_DECEL : R.
Variable STOP_BUFFER : Z.

Definition publish_waypoints (closest_idx : Z) : M unit :=
  (let lane := Lane.default in
   base <- attr_of base_waypoints AttributeError ;;
   let lane := Lane.mk (Lane.header base) (Lane.waypoints lane) in
   let farthest_idx := closest_idx + LOOKAHEAD_WPS in
   base <- attr_of base_waypoints AttributeError ;;
   let lane :=
     Lane.mk (Lane.header lane) (Py.slice (Lane.waypoints base) closest_idx farthest_idx) in
   publish lane)%py.

(** The body of the [for] loop of [decelerate_waypoints], over the remaining
    pairs of [enumerate(waypoints)]; [temp] is the list built so far. *)
Fixpoint decelerate_loop (waypoints : list Waypoint.t) (closest_idx : Z)
  (items : list (Z * Waypoint.t)) (temp : list Waypoint.t) : M (list Waypoint.t) :=
  match items with
  | [] => ret temp
  | (i, wp) :: rest =>
      (let p := Waypoint.default in
       let p := Waypoint.set_pose p (Waypoint.pose wp) in
       stopline <- attr stopline_wp_idx ;;
       let stop_idx := Z.max (stopline - closest_idx - STOP_BUFFER) 0 in
       dist <- lift (distance waypoints i stop_idx) ;;
       vel <- lift (Py.math_sqrt (2 * MAX_DECEL * dist)) ;;
       let vel := if Rlt_dec vel 1 then 0%R else vel in
       let p := Waypoint.set_linear_x p (Py.min vel (Waypoint.linear_x wp)) in
       decelerate_loop waypoints closest_idx rest (temp ++ [p]))%py
  end.

Definition decelerate_waypoints (waypoints : list Waypoint.t) (closest_idx : Z)
  : M (list Waypoint.t) :=
  decelerate_loop waypoints closest_idx (Py.enumerate waypoints) [].

(** One iteration of the [while] loop of [loop] ([rate.sleep()] apart).  A
    message object is true whatever it holds, so the guard only asks that
    both attributes are set. *)
Definition loop_body : M unit :=
  (p <- attr pose ;;
   b <- attr base_waypoints ;;
   match p, b with
   | Some _, Some _ =>
       closest_waypoint_idx <- get_closest_waypoint_idx ;;
       publish_waypoints closest_waypoint_idx
   | _, _ => ret tt
   end)%py.

(** [loop], while [rospy.is_shutdown()] stays false for [ticks] iterations. *)
Fixpoint loop (ticks : nat) : M unit :=
  match ticks with
  | O => ret tt
  | S n => (loop_body ;; loop n)%py
  end.

End Constants.
End Tunable.

Definition LOOKAHEAD_WPS : Z := 200.
Definition MAX_DECEL : R := (1 / 2)%R.
Definition STOP_BUFFER : Z := 2.

Definition publish_waypoints : Z -> M unit := Tunable.publish_waypoints LOOKAHEAD_WPS.
Definition decelerate_waypoints : list Waypoint.t -> Z -> M (list Waypoint.t) :=
  Tunable.decelerate_waypoints MAX_DECEL STOP_BUFFER.
Definition loop_body : M unit := Tunable.loop_body LOOKAHEAD_WPS.
Definition loop : nat -> M unit := Tunable.loop LOOKAHEAD_WPS.

(** *** [generate_lane]

    The method is written against names that are bound nowhere: its
    parameter is [sef], its first statement is the expression
    [lane - Lane()], and it reads [LOOKAHEADWPS].  A name that is neither a
    local of the function nor bound in the module is a [NameError] at the
    moment it is read. *)

(** The names the module binds (its imports, constants and class); none of
    the names looked up below is a builtin. *)
Definition module_names : list string :=
  ["rospy"; "PoseStamped"; "Lane"; "Waypoint"; "np"; "math"; "KDTree";
   "LOOKAHEAD_WPS"; "MAX_DECEL"; "WaypointUpdater"]%string.

Definition name (locals : list string) (n : string) : M unit :=
  if in_dec string_dec n (locals ++ module_names) then ret tt else raise NameError.

Definition generate_lane : M Lane.t :=
  (name ["sef"%string] "lane" ;;                    (* lane - Lane() *)
   name ["sef"%string] "Lane" ;;
   let lane := Lane.default in
   name ["sef"%string] "self" ;;                    (* self.get_closest_waypoint_idx() *)
   closest_idx <- get_closest_waypoint_idx ;;
   name ["sef"; "closest_idx"]%string "LOOKAHEADWPS" ;;
   let farthest_idx := closest_idx + LOOKAHEAD_WPS in
   base <- attr_of base_waypoints AttributeError ;;
   let roi_waypoints := Py.slice (Lane.waypoints base) closest_idx farthest_idx in
   stopline <- attr stopline_wp_idx ;;
   if (stopline =? -1) || (stopline >=? farthest_idx)
   then ret (Lane.mk (Lane.header lane) roi_waypoints)
   else (waypoints <- decelerate_waypoints roi_waypoints closest_idx ;;
         ret (Lane.mk (Lane.header lane) waypoints)))%py.

(** *** Subscriber callbacks *)

Definition pose_cb (msg : PoseStamped.t) : M unit := set_pose (Some msg).

Definition waypoints_cb (waypoints : Lane.t) : M unit :=
  (set_base_waypoints (Some waypoints) ;;
   w2d <- attr waypoints_2d ;;
   if Py.falsy_list w2d
   then (set_waypoints_2d
           (Some (map (fun waypoint =>
                         (Point.x (Waypoint.position waypoint),
                          Point.y (Waypoint.position waypoint)))
                    (Lane.waypoints waypoints))) ;;
         w2d <- attr_of waypoints_2d TypeError ;;
         tree <- lift (KDTree.build w2d) ;;
         set_waypoint_tree (Some tree))
   else ret tt)%py.

(** [msg] is the [data] field of the [Int32] message. *)
Definition traffic_cb (msg : Z) : M unit := set_stopline_wp_idx msg.

Definition obstacle_cb (msg : Z) : M unit := ret tt.

(** The attributes after a computation, and its outcome. *)
Definition exec {A : Type} (c : M A) (self : WaypointUpdater) : WaypointUpdater :=
  fst (c self).
Definition outcome {A : Type} (c : M A) (self : WaypointUpdater) : result A :=
  snd (c self).

(** *** Waypoint velocity accessors

    [set_waypoint_velocity] writes into the waypoint object that the list
    holds at the given index.  Waypoint objects are kept in a store and a
    list of waypoints is a list of references into it, so that the write
    shows through every reference to the same object. *)

Definition ref : Type := nat.
Definition store : Type := ref -> Waypoint.t.

Definition get_waypoint_velocity (h : store) (waypoint : ref) : R :=
  Waypoint.linear_x (h waypoint).

Definition set_waypoint_velocity (h : store) (waypoints : list ref) (waypoint : Z)
  (velocity : R) : store * result unit :=
  match Py.getitem waypoints waypoint with
  | Ok r =>
      (fun r' => if Nat.eqb r' r then Waypoint.set_linear_x (h r) velocity else h r', Ok tt)
  | Raise e => (h, Raise e)
  end.

(** *** Deliveries and ticks

    What happens to the node, one event at a time: a message on a topic
    runs the topic's callback, a tick runs one iteration of the loop.  An
    exception in a callback is caught and logged by rospy, and the node
    lives on with its attributes as the callback left them; an exception in
    a tick leaves [loop], and with it the process, so no later event is
    handled. *)

Inductive event : Type :=
| CurrentPose (msg : PoseStamped.t)
| BaseWaypoints (waypoints : Lane.t)
| TrafficWaypoint (data : Z)
| ObstacleWaypoint (data : Z)
| Tick.

Definition handle (e : event) : M unit :=
  match e with
  | CurrentPose msg => pose_cb msg
  | BaseWaypoints waypoints => waypoints_cb waypoints
  | TrafficWaypoint data => traffic_cb data
  | ObstacleWaypoint data => obstacle_cb data
  | Tick => loop_body
  end.

(** [__init__] subscribes to [/current_pose] and [/base_waypoints]; the
    subscription to [/traffic_waypoint] is commented out and there is none
    for obstacles. *)
Definition subscribed (e : event) : bool :=
  match e with
  | CurrentPose _ | BaseWaypoints _ | Tick => true
  | TrafficWaypoint _ | ObstacleWaypoint _ => false
  end.

Fixpoint run (events : list event) (self : WaypointUpdater) : WaypointUpdater :=
  match events with
  | [] => self
  | e :: rest =>
      match e, handle e self with
      | Tick, (self', Raise _) => self'
      | _, (self', _) => run rest self'
      end
  end.

(** The tree, when there is one, indexes the stored coordinate list, and
    there is a tree as soon as the list has points. *)
Definition index_consistent (s : WaypointUpdater) : Prop :=
  (Py.falsy_list (waypoints_2d s) = true /\ waypoint_tree s = None) \/
  (exists pts : list (R * R),
      pts <> [] /\ waypoints_2d s = Some pts /\ waypoint_tree s = Some (KDTree.mk pts) /\
      exists lane : Lane.t, base_waypoints s = Some lane).

(** ** Reading the specification's terms on the model *)

(** Straight-line distance between two positions. *)
Definition euclid (a b : Point.t) : R :=
  sqrt ((Point.x a - Point.x b) * (Point.x a - Point.x b)
        + (Point.y a - Point.y b) * (Point.y a - Point.y b)
        + (Point.z a - Point.z b) * (Point.z a - Point.z b))%R.

(** Position of the [k]-th point of a window. *)
Definition point_at (window : list Waypoint.t) (k : nat) : Point.t :=
  Waypoint.position (nth k window Waypoint.default).

(** Sum of the [n] consecutive point-to-point distances that start at
    position [i]. *)
Fixpoint arc_from (window : list Waypoint.t) (i n : nat) : R :=
  match n with
  | O => 0%R
  | S n' => (euclid (point_at window i) (point_at window (S i)) + arc_from window (S i) n')%R
  end.

(** Arc length along the window from position [i] to position [j]; zero
    when [i] is at or beyond [j]. *)
Definition arc_length (window : list Waypoint.t) (i j : nat) : R :=
  arc_from window i (j - i).

(** [stopOffset = max(stopLineIdx - localizedIdx - BUFFER, 0)] *)
Definition stop_offset (buffer stopLineIdx localizedIdx : Z) : Z :=
  Z.max (stopLineIdx - localizedIdx - buffer) 0.

(** The braking curve with its snap: [sqrt(2 * max_decel * dist)], set to
    zero when below 1 m/s. *)
Definition braking_speed (max_decel dist : R) : R :=
  let vel := sqrt (2 * max_decel * dist) in
  if Rlt_dec vel 1 then 0%R else vel.

(** The waypoint that braking makes of the window point [wp] at window
    position [i]: a fresh waypoint with [wp]'s pose, whose speed is the
    braking speed for the way left to the stop position, capped by [wp]'s
    own speed. *)
Definition braked (max_decel : R) (window : list Waypoint.t) (stop_idx i : Z)
  (wp : Waypoint.t) : Waypoint.t :=
  Waypoint.set_linear_x
    (Waypoint.set_pose Waypoint.default (Waypoint.pose wp))
    (Rmin (braking_speed max_decel (arc_length window (Z.to_nat i) (Z.to_nat stop_idx)))
          (Waypoint.linear_x wp)).

(** Target speeds of a list of waypoints. *)
Definition speeds (wps : list Waypoint.t) : list R := map Waypoint.linear_x wps.

(** ** Frame conditions *)

(** The attributes other than the publisher's outbox. *)
Definition same_attributes (s s' : WaypointUpdater) : Prop :=
  pose s' = pose s /\
  base_waypoints s' = base_waypoints s /\
  waypoints_2d s' = waypoints_2d s /\
  waypoint_tree s' = waypoint_tree s /\
  stopline_wp_idx s' = stopline_wp_idx s.

Definition read_only {A : Type} (c : M A) : Prop :=
  forall s, same_attributes s (exec c s).

(** ** Scenarios *)

(** A waypoint on the x axis, at [(x, 0, 0)], with target speed [v]. *)
Definition waypoint_at (x v : R) : Waypoint.t :=
  Waypoint.mk
    (PoseStamped.mk Header.default (Pose.mk (Point.mk x 0 0) Quaternion.default))
    (TwistStamped.mk Header.default (Twist.mk (Vector3.mk v 0 0) Vector3.default)).

(** A pose message for a car at [(x, y, 0)]. *)
Definition car_at (x y : R) : PoseStamped.t :=
  PoseStamped.mk Header.default (Pose.mk (Point.mk x y 0) Quaternion.default).

(** A window of one point, and a node told of a stop line at index 5. *)
Definition short_window : list Waypoint.t := [waypoint_at 0 10].
Definition node_stop_5 : WaypointUpdater := exec (traffic_cb 5) init.

(** Three points 5 m and 4 m apart whose target speeds first rise and end
    negative, and a node told of a stop line at index 4. *)
Definition uneven_window : list Waypoint.t :=
  [waypoint_at 0 1; waypoint_at 5 10; waypoint_at 9 (-1)].
Definition node_stop_4 : WaypointUpdater := exec (traffic_cb 4) init.

(** The scenario of the specification: five points on a line, one metre
    apart, target speed 10 m/s each; the car exactly on point 1; the stop
    line at index 3.  The scenario reads the constants as a look-ahead of 3
    points, no stop buffer and a deceleration of 0.5 m/s2. *)
Definition scenario_path : Lane.t :=
  Lane.mk Header.default
    [waypoint_at 0 10; waypoint_at 1 10; waypoint_at 2 10; waypoint_at 3 10; waypoint_at 4 10].
Definition scenario_node : WaypointUpdater :=
  exec (traffic_cb 3) (exec (pose_cb (car_at 1 0)) (exec (waypoints_cb scenario_path) init)).
Definition scenario_window : list Waypoint.t :=
  [waypoint_at 1 10; waypoint_at 2 10; waypoint_at 3 10].
Definition scenario_coordinates : list (R * R) :=
  [(0, 0); (1, 0); (2, 0); (3, 0); (4, 0)]%R.

(** What is left of the scenario's path from point 1 on: the window that
    the look-ahead of the source (200 points) cuts there. *)
Definition scenario_tail : list Waypoint.t :=
  [waypoint_at 1 10; waypoint_at 2 10; waypoint_at 3 10; waypoint_at 4 10].

(** Two different paths, delivered one after the other. *)
Definition first_path : Lane.t := Lane.mk Header.default [waypoint_at 0 10].
Definition second_path : Lane.t :=
  Lane.mk Header.default [waypoint_at 5 10; waypoint_at 6 10].

(** The 2D coordinates [waypoints_cb] extracts from a path. *)
Definition coordinates (lane : Lane.t) : list (R * R) :=
  map (fun waypoint =>
         (Point.x (Waypoint.position waypoint), Point.y (Waypoint.position waypoint)))
      (Lane.waypoints lane).


(** ** Running computations *)

Lemma bind_ok {A B : Type} (c : M A) (k : A -> M B) s s' a :
  c s = (s', Ok a) -> bind c k s = k a s'.
Proof. intros H. unfold bind. now rewrite H. Qed.

Lemma bind_raise {A B : Type} (c : M A) (k : A -> M B) s s' e :
  c s = (s', Raise e) -> bind c k s = (s', Raise e).
Proof. intros H. unfold bind. now rewrite H. Qed.

Lemma attr_of_some {A : Type} (f : WaypointUpdater -> option A) e s a :
  f s = Some a -> attr_of f e s = (s, Ok a).
Proof. intros H. unfold attr_of. now rewrite H. Qed.

Lemma attr_of_none {A : Type} (f : WaypointUpdater -> option A) e s :
  f s = None -> attr_of f e s = (s, Raise e).
Proof. intros H. unfold attr_of. now rewrite H. Qed.

(** ** Python list operations *)

Lemma len_nonneg {A : Type} (l : list A) : 0 <= Py.len l.
Proof. unfold Py.len. lia. Qed.

Lemma getitem_in_range {A : Type} (l : list A) (i : Z) (d : A) :
  0 <= i < Py.len l -> Py.getitem l i = Ok (nth (Z.to_nat i) l d).
Proof.
  intros Hi. unfold Py.getitem.
  destruct (i <? 0) eqn:Hneg; [apply Z.ltb_lt in Hneg; lia|].
  rewrite Hneg. simpl.
  destruct (Py.len l <=? i) eqn:Hhi; [apply Z.leb_le in Hhi; lia|].
  destruct (nth_error l (Z.to_nat i)) eqn:Hn.
  - now rewrite (nth_error_nth _ _ d Hn).
  - apply nth_error_None in Hn. unfold Py.len in *. lia.
Qed.

Lemma getitem_from_end {A : Type} (l : list A) (i : Z) (d : A) :
  - Py.len l <= i < 0 -> Py.getitem l i = Ok (nth (Z.to_nat (i + Py.len l)) l d).
Proof.
  intros Hi. unfold Py.getitem.
  destruct (i <? 0) eqn:Hneg; [|apply Z.ltb_ge in Hneg; lia].
  destruct (i + Py.len l <? 0) eqn:Hlo; [apply Z.ltb_lt in Hlo; lia|].
  destruct (Py.len l <=? i + Py.len l) eqn:Hhi; [apply Z.leb_le in Hhi; lia|].
  simpl.
  destruct (nth_error l (Z.to_nat (i + Py.len l))) eqn:Hn.
  - now rewrite (nth_error_nth _ _ d Hn).
  - apply nth_error_None in Hn. unfold Py.len in *. lia.
Qed.

Lemma getitem_out_of_range {A : Type} (l : list A) (i : Z) :
  Py.len l <= i -> Py.getitem l i = Raise IndexError.
Proof.
  intros Hi. unfold Py.getitem. pose proof (len_nonneg l).
  destruct (i <? 0) eqn:Hneg; [apply Z.ltb_lt in Hneg; lia|].
  rewrite Hneg. simpl.
  destruct (Py.len l <=? i) eqn:Hhi; [reflexivity|apply Z.leb_gt in Hhi; lia].
Qed.

(** A slice that starts at a valid index and asks for [n] elements. *)
Lemma slice_window {A : Type} (l : list A) (lo n : Z) :
  0 <= lo <= Py.len l -> 0 <= n ->
  Py.slice l lo (lo + n) = firstn (Z.to_nat n) (skipn (Z.to_nat lo) l).
Proof.
  intros Hlo Hn. unfold Py.slice, Py.clip.
  destruct (lo <? 0) eqn:E1; [apply Z.ltb_lt in E1; lia|].
  destruct (lo + n <? 0) eqn:E2; [apply Z.ltb_lt in E2; lia|].
  rewrite (Z.min_l lo) by lia.
  destruct (Z.le_ge_cases (lo + n) (Py.len l)) as [Hle|Hge].
  - rewrite Z.min_l by lia. f_equal. lia.
  - rewrite Z.min_r by lia.
    assert (Hlen : List.length (skipn (Z.to_nat lo) l) = Z.to_nat (Py.len l - lo)).
    { rewrite length_skipn. unfold Py.len. lia. }
    rewrite !firstn_all2; try reflexivity; rewrite Hlen; lia.
Qed.

(** ** The nearest-neighbour index *)

Lemma nearest_index_range q pts : forall i bd bi,
  0 <= bi < i ->
  0 <= snd (KDTree.nearest q pts i bd bi) < i + Py.len pts.
Proof.
  induction pts as [|p rest IH]; intros i bd bi Hb; simpl.
  - unfold Py.len. simpl. lia.
  - assert (Hlen : Py.len (p :: rest) = 1 + Py.len rest).
    { unfold Py.len. simpl List.length. lia. }
    rewrite Hlen.
    destruct (Rlt_dec (KDTree.sqdist q p) bd).
    + pose proof (IH (i + 1) (KDTree.sqdist q p) i ltac:(lia)). lia.
    + pose proof (IH (i + 1) bd bi ltac:(lia)). lia.
Qed.

Lemma query_index_range pts q :
  pts <> [] ->
  0 <= snd (KDTree.query (KDTree.mk pts) q) < Py.len pts.
Proof.
  intros Hne. unfold KDTree.query. simpl.
  destruct pts as [|p rest]; [congruence|].
  pose proof (nearest_index_range q rest 1 (KDTree.sqdist q p) 0 ltac:(lia)) as H.
  destruct (KDTree.nearest q rest 1 (KDTree.sqdist q p) 0) as [bd bi].
  cbn [snd] in *. unfold Py.len in *. simpl List.length. lia.
Qed.

(** ** More on running computations *)

Lemma lift_run {A : Type} (r : result A) s : lift r s = (s, r).
Proof. reflexivity. Qed.

Lemma getitem_prev {A : Type} (l : list A) (i : Z) (d : A) :
  0 <= i < Py.len l ->
  Py.getitem l (i - 1)
  = Ok (nth (Z.to_nat (if i =? 0 then Py.len l - 1 else i - 1)) l d).
Proof.
  intros Hi. destruct (i =? 0) eqn:E.
  - apply Z.eqb_eq in E. subst i.
    rewrite (getitem_from_end l (0 - 1) d) by lia. do 2 f_equal. lia.
  - apply Z.eqb_neq in E. apply getitem_in_range. lia.
Qed.

(** ** Localisation *)

Section Localisation.

Variable s : WaypointUpdater.
Variable msg : PoseStamped.t.
Variable pts : list (R * R).

Hypothesis pose_stored : pose s = Some msg.
Hypothesis coordinates_stored : waypoints_2d s = Some pts.
Hypothesis tree_built : waypoint_tree s = Some (KDTree.mk pts).
Hypothesis path_not_empty : pts <> [].

Let q : R * R :=
  (Point.x (Pose.position (PoseStamped.pose msg)),
   Point.y (Pose.position (PoseStamped.pose msg))).
Let closest : Z := snd (KDTree.query (KDTree.mk pts) q).
Let prev : Z := if closest =? 0 then Py.len pts - 1 else closest - 1.
Let point (i : Z) : R * R := nth (Z.to_nat i) pts (0, 0)%R.
Let dot : R := np_dot (np_sub (point closest) (point prev)) (np_sub q (point closest)).

Lemma get_closest_waypoint_idx_run :
  get_closest_waypoint_idx s
  = (s, Ok (if Rlt_dec 0 dot then (closest + 1) mod Py.len pts else closest)).
Proof.
  pose proof (query_index_range pts q path_not_empty) as Hrange. fold closest in Hrange.
  unfold get_closest_waypoint_idx.
  rewrite (bind_ok _ _ _ _ _ (attr_of_some pose AttributeError s msg pose_stored)).
  rewrite (bind_ok _ _ _ _ _ (attr_of_some pose AttributeError s msg pose_stored)).
  rewrite (bind_ok _ _ _ _ _ (attr_of_some _ AttributeError s _ tree_built)).
  rewrite (bind_ok _ _ _ _ _ (attr_of_some _ TypeError s _ coordinates_stored)).
  fold q. fold closest.
  rewrite (bind_ok _ _ s s (point closest))
    by (rewrite lift_run; f_equal; now apply getitem_in_range).
  rewrite (bind_ok _ _ _ _ _ (attr_of_some _ TypeError s _ coordinates_stored)).
  rewrite (bind_ok _ _ s s (point prev))
    by (rewrite lift_run; f_equal; now apply getitem_prev).
  fold dot. destruct (Rlt_dec 0 dot); [|reflexivity].
  rewrite (bind_ok _ _ _ _ _ (attr_of_some _ TypeError s _ coordinates_stored)).
  rewrite lift_run. unfold Py.mod_.
  destruct (Py.len pts =? 0) eqn:E; [apply Z.eqb_eq in E; lia|reflexivity].
Qed.

End Localisation.

(** C2. On a node whose coordinate list [pts] is not empty and whose tree
    indexes it, with a pose stored, [get_closest_waypoint_idx] returns the
    tree's nearest index [closest], or [(closest + 1) mod len(pts)]: the
    latter exactly when the dot product of [pts[closest] - pts[prev]] with
    [pose - pts[closest]] is strictly positive, where [prev] is
    [closest - 1], or [len(pts) - 1] when [closest] is 0.  On a list of a
    single point the result is index 0. *)
Theorem get_closest_waypoint_idx_resolves :
  forall (s : WaypointUpdater) (msg : PoseStamped.t) (pts : list (R * R)),
    pose s = Some msg ->
    waypoints_2d s = Some pts ->
    waypoint_tree s = Some (KDTree.mk pts) ->
    pts <> [] ->
    let q := (Point.x (Pose.position (PoseStamped.pose msg)),
              Point.y (Pose.position (PoseStamped.pose msg))) in
    let closest := snd (KDTree.query (KDTree.mk pts) q) in
    let prev := if closest =? 0 then Py.len pts - 1 else closest - 1 in
    let point := fun i : Z => nth (Z.to_nat i) pts (0, 0)%R in
    let dot := np_dot (np_sub (point closest) (point prev)) (np_sub q (point closest)) in
    0 <= closest < Py.len pts /\
    get_closest_waypoint_idx s
      = (s, Ok (if Rlt_dec 0 dot then (closest + 1) mod Py.len pts else closest)) /\
    (Py.len pts = 1 -> get_closest_waypoint_idx s = (s, Ok 0)).
Proof.
  intros s msg pts Hpose H2d Htree Hne q closest prev point dot.
  pose proof (query_index_range pts q Hne) as Hrange. fold closest in Hrange.
  pose proof (get_closest_waypoint_idx_run s msg pts Hpose H2d Htree Hne) as Hrun.
  cbv zeta in Hrun. fold q closest prev in Hrun. fold point in Hrun. fold dot in Hrun.
  split; [exact Hrange|]. split; [exact Hrun|].
  intros Hone. rewrite Hrun.
  assert (Hc : closest = 0) by lia.
  assert (Hp : prev = 0) by (unfold prev; rewrite Hc; simpl; lia).
  assert (Hdot : dot = 0%R).
  { unfold dot. rewrite Hp, Hc. unfold np_dot, np_sub. simpl. ring. }
  destruct (Rlt_dec 0 dot); [lra|]. now rewrite Hc.
Qed.

(** ** The published window *)

Lemma publish_waypoints_run (n : Z) s lane closest_idx :
  base_waypoints s = Some lane ->
  Tunable.publish_waypoints n closest_idx s
  = publish (Lane.mk (Lane.header lane)
               (Py.slice (Lane.waypoints lane) closest_idx (closest_idx + n))) s.
Proof.
  intros Hb. unfold Tunable.publish_waypoints.
  rewrite (bind_ok _ _ _ _ _ (attr_of_some _ AttributeError s _ Hb)).
  rewrite (bind_ok _ _ _ _ _ (attr_of_some _ AttributeError s _ Hb)).
  reflexivity.
Qed.

Lemma nth_error_window {A : Type} (l : list A) (lo n k : nat) :
  (k < List.length (firstn n (skipn lo l)))%nat ->
  nth_error (firstn n (skipn lo l)) k = nth_error l (lo + k) /\ (k < n)%nat.
Proof.
  intros Hk. rewrite length_firstn in Hk.
  split; [|lia].
  rewrite nth_error_firstn.
  destruct (Nat.ltb_spec k n) as [_|Hge]; [|lia].
  now rewrite nth_error_skipn.
Qed.

(** C3. For a stored path and an index [closest_idx] valid in it,
    [publish_waypoints] publishes the path's header with exactly the points
    at path positions [closest_idx], [closest_idx + 1], ... below
    [closest_idx + LOOKAHEAD_WPS] (200): the first 200 of the points that
    remain from [closest_idx] on, fewer when the path ends first, with no
    wraparound.  The window has at most 200 points, and its [k]-th point is
    the path's point [closest_idx + k]. *)
Theorem publish_waypoints_window :
  forall (s : WaypointUpdater) (lane : Lane.t) (closest_idx : Z),
    base_waypoints s = Some lane ->
    0 <= closest_idx < Py.len (Lane.waypoints lane) ->
    let path := Lane.waypoints lane in
    let window := firstn 200 (skipn (Z.to_nat closest_idx) path) in
    publish_waypoints closest_idx s = publish (Lane.mk (Lane.header lane) window) s /\
    Py.len window = Z.min LOOKAHEAD_WPS (Py.len path - closest_idx) /\
    Py.len window <= LOOKAHEAD_WPS /\
    (forall k : nat,
        (k < List.length window)%nat ->
        nth_error window k = nth_error path (Z.to_nat closest_idx + k) /\
        closest_idx <= closest_idx + Z.of_nat k < closest_idx + LOOKAHEAD_WPS /\
        closest_idx + Z.of_nat k < Py.len path).
Proof.
  intros s lane closest_idx Hb Hidx path window.
  assert (Hlen : Py.len window = Z.min LOOKAHEAD_WPS (Py.len path - closest_idx)).
  { unfold window, Py.len, LOOKAHEAD_WPS. rewrite length_firstn, length_skipn.
    unfold Py.len in Hidx. fold path in Hidx. lia. }
  split; [|split; [exact Hlen|split; [lia|]]].
  - unfold publish_waypoints. rewrite (publish_waypoints_run _ _ _ _ Hb).
    rewrite slice_window; [reflexivity|lia|unfold LOOKAHEAD_WPS; lia].
  - intros k Hk. destruct (nth_error_window _ _ _ _ Hk) as [Hnth Hlt].
    split; [exact Hnth|]. unfold LOOKAHEAD_WPS, Py.len in *. lia.
Qed.

Lemma publish_waypoints_window_witness :
  exists s lane closest_idx,
    base_waypoints s = Some lane /\
    0 <= closest_idx < Py.len (Lane.waypoints lane) /\
    Py.len (firstn 200 (skipn (Z.to_nat closest_idx) (Lane.waypoints lane))) <= LOOKAHEAD_WPS.
Proof.
  exists (exec (waypoints_cb (Lane.mk Header.default [Waypoint.default])) init),
    (Lane.mk Header.default [Waypoint.default]), 0.
  assert (Hb : base_waypoints (exec (waypoints_cb (Lane.mk Header.default [Waypoint.default])) init)
               = Some (Lane.mk Header.default [Waypoint.default])) by reflexivity.
  assert (Hi : 0 <= 0 < Py.len (Lane.waypoints (Lane.mk Header.default [Waypoint.default])))
    by (unfold Py.len; simpl; lia).
  split; [exact Hb|]. split; [exact Hi|].
  exact (proj1 (proj2 (proj2 (publish_waypoints_window _ _ 0 Hb Hi)))).
Defined.

(** ** What a tick leaves untouched *)

Lemma same_attributes_refl s : same_attributes s s.
Proof. repeat split. Qed.

Lemma same_attributes_trans s1 s2 s3 :
  same_attributes s1 s2 -> same_attributes s2 s3 -> same_attributes s1 s3.
Proof.
  unfold same_attributes. intros (?&?&?&?&?) (?&?&?&?&?).
  repeat split; congruence.
Qed.

Lemma read_only_ret {A : Type} (a : A) : read_only (ret a).
Proof. intros s. apply same_attributes_refl. Qed.

Lemma read_only_raise {A : Type} (e : exn) : read_only (@raise A e).
Proof. intros s. apply same_attributes_refl. Qed.

Lemma read_only_lift {A : Type} (r : result A) : read_only (lift r).
Proof. intros s. apply same_attributes_refl. Qed.

Lemma read_only_attr {A : Type} (f : WaypointUpdater -> A) : read_only (attr f).
Proof. intros s. apply same_attributes_refl. Qed.

Lemma read_only_attr_of {A : Type} (f : WaypointUpdater -> option A) e :
  read_only (attr_of f e).
Proof.
  intros s. unfold exec, attr_of. destruct (f s); apply same_attributes_refl.
Qed.

Lemma read_only_publish lane : read_only (publish lane).
Proof. intros s. repeat split. Qed.

Lemma read_only_bind {A B : Type} (c : M A) (k : A -> M B) :
  read_only c -> (forall a, read_only (k a)) -> read_only (bind c k).
Proof.
  intros Hc Hk s. specialize (Hc s). unfold exec, bind in *.
  destruct (c s) as [s' [a|e]]; simpl in Hc.
  - eapply same_attributes_trans; [exact Hc|]. apply Hk.
  - exact Hc.
Qed.

Lemma read_only_if {A : Type} (b : bool) (c1 c2 : M A) :
  read_only c1 -> read_only c2 -> read_only (if b then c1 else c2).
Proof. now destruct b. Qed.

Lemma read_only_if_dec {A : Type} {P Q : Prop} (b : {P} + {Q}) (c1 c2 : M A) :
  read_only c1 -> read_only c2 -> read_only (if b then c1 else c2).
Proof. now destruct b. Qed.

Create HintDb frame.
#[local] Hint Resolve read_only_ret read_only_raise read_only_lift read_only_attr
  read_only_attr_of read_only_publish read_only_if read_only_if_dec : frame.

Ltac frame :=
  repeat first
    [ solve [auto with frame]
    | apply read_only_bind; [|intros]
    | apply read_only_if_dec
    | progress cbv zeta ].

Lemma get_closest_waypoint_idx_read_only : read_only get_closest_waypoint_idx.
Proof. unfold get_closest_waypoint_idx. frame. Qed.

Lemma publish_waypoints_read_only n closest_idx :
  read_only (Tunable.publish_waypoints n closest_idx).
Proof. unfold Tunable.publish_waypoints. frame. Qed.

#[local] Hint Resolve get_closest_waypoint_idx_read_only publish_waypoints_read_only : frame.

Lemma loop_body_read_only n : read_only (Tunable.loop_body n).
Proof.
  unfold Tunable.loop_body. frame.
  destruct a as [?|]; [destruct a0 as [?|]|]; frame.
Qed.

(** The localisation step changes nothing at all, not even the outbox. *)
Lemma get_closest_waypoint_idx_pure s : exec get_closest_waypoint_idx s = s.
Proof.
  unfold exec, get_closest_waypoint_idx, bind, attr_of, lift, ret.
  repeat match goal with
         | |- context [match ?f s with _ => _ end] => destruct (f s)
         | |- context [match Py.getitem ?l ?i with _ => _ end] => destruct (Py.getitem l i)
         | |- context [if Rlt_dec ?a ?b then _ else _] => destruct (Rlt_dec a b)
         | |- context [match Py.mod_ ?a ?b with _ => _ end] => destruct (Py.mod_ a b)
         end; try reflexivity.
Qed.

(** C10. A tick of the publish path is read-only on the node: the
    localisation step [get_closest_waypoint_idx] returns the node as it
    found it; [publish_waypoints], and one whole iteration of the loop, leave
    the stored pose, the stored path (with the speeds of its waypoints), the
    coordinate list, the tree and the stop-line index as they were.  This
    holds in every state of the node, so in particular in the reachable ones
    that hold a pose and a path. *)
Theorem tick_read_only :
  forall s : WaypointUpdater,
    exec get_closest_waypoint_idx s = s /\
    (forall closest_idx : Z, same_attributes s (exec (publish_waypoints closest_idx) s)) /\
    same_attributes s (exec loop_body s).
Proof.
  intros s. split; [apply get_closest_waypoint_idx_pure|]. split.
  - intros closest_idx. apply publish_waypoints_read_only.
  - apply loop_body_read_only.
Qed.

(** ** Distances along a window *)

Lemma range_empty a b : b <= a -> Py.range a b = [].
Proof. intros H. unfold Py.range. replace (Z.to_nat (b - a)) with O by lia. reflexivity. Qed.

Lemma range_cons a b : a < b -> Py.range a b = a :: Py.range (a + 1) b.
Proof.
  intros H. unfold Py.range.
  replace (Z.to_nat (b - a)) with (S (Z.to_nat (b - (a + 1)))) by lia.
  simpl. f_equal; [lia|].
  rewrite <- seq_shift, map_map. apply map_ext. intros k. lia.
Qed.

Lemma sum_squares_nonneg (a b c : R) : (0 <= a * a + b * b + c * c)%R.
Proof. nra. Qed.

Lemma dl_ok a b : dl a b = Ok (euclid a b).
Proof.
  unfold dl, Py.math_sqrt, euclid.
  match goal with |- context [Rlt_dec ?v 0] => destruct (Rlt_dec v 0) as [Hlt|_] end.
  - exfalso. revert Hlt. apply Rle_not_lt, sum_squares_nonneg.
  - reflexivity.
Qed.

Lemma euclid_nonneg a b : (0 <= euclid a b)%R.
Proof. apply sqrt_pos. Qed.

Lemma euclid_same a : euclid a a = 0%R.
Proof.
  unfold euclid. rewrite <- sqrt_0 at 1. f_equal. ring.
Qed.

Lemma arc_from_nonneg window n : forall i, (0 <= arc_from window i n)%R.
Proof.
  induction n as [|n IH]; intros i; simpl; [lra|].
  pose proof (euclid_nonneg (point_at window i) (point_at window (S i))).
  specialize (IH (S i)). lra.
Qed.

Lemma arc_from_split window a b : forall i,
  arc_from window i (a + b) = (arc_from window i a + arc_from window (i + a) b)%R.
Proof.
  induction a as [|a IH]; intros i; simpl.
  - rewrite Nat.add_0_r. lra.
  - rewrite IH. replace (S i + a)%nat with (i + S a)%nat by lia. lra.
Qed.

Lemma arc_length_nonneg window i j : (0 <= arc_length window i j)%R.
Proof. apply arc_from_nonneg. Qed.

Lemma arc_length_past window i j : (j <= i)%nat -> arc_length window i j = 0%R.
Proof. intros H. unfold arc_length. now replace (j - i)%nat with O by lia. Qed.

(** Farther from the stop position means a longer way to it. *)
Lemma arc_length_antitone window i j stop :
  (i <= j)%nat -> (j <= stop)%nat ->
  (arc_length window j stop <= arc_length window i stop)%R.
Proof.
  intros Hij Hjs. unfold arc_length.
  replace (stop - i)%nat with ((j - i) + (stop - j))%nat by lia.
  rewrite arc_from_split. replace (i + (j - i))%nat with j by lia.
  pose proof (arc_from_nonneg window (j - i) i). lra.
Qed.

(** The loop of [distance] once it is past its first step: [wp1] holds
    position [k] and the next [n] positions are still to come. *)
Lemma distance_loop_run waypoints n : forall (k : nat) (acc : R),
  (k + n < List.length waypoints)%nat ->
  distance_loop waypoints (Py.range (Z.of_nat k + 1) (Z.of_nat k + 1 + Z.of_nat n)) acc
    (Z.of_nat k)
  = Ok (acc + arc_from waypoints k n)%R.
Proof.
  induction n as [|n IH]; intros k acc Hk.
  - rewrite range_empty by lia. simpl. f_equal. lra.
  - rewrite range_cons by lia. cbn [distance_loop].
    rewrite (getitem_in_range waypoints (Z.of_nat k) Waypoint.default)
      by (unfold Py.len; lia).
    rewrite (getitem_in_range waypoints (Z.of_nat k + 1) Waypoint.default)
      by (unfold Py.len; lia).
    cbn [rbind]. rewrite dl_ok. cbn [rbind].
    replace (Z.of_nat k + 1) with (Z.of_nat (S k)) by lia.
    replace (Z.of_nat (S k) + Z.of_nat (S n)) with (Z.of_nat (S k) + 1 + Z.of_nat n) by lia.
    rewrite IH by lia. f_equal.
    rewrite Nat2Z.id. replace (Z.to_nat (Z.of_nat (S k))) with (S k) by lia.
    cbn [arc_from]. unfold point_at. lra.
Qed.

(** [distance] computes the arc length between two window positions,
    provided the second one is inside the window or already behind. *)
Lemma distance_ok waypoints (wp1 wp2 : Z) :
  0 <= wp1 -> 0 <= wp2 ->
  wp2 < Py.len waypoints \/ wp2 < wp1 ->
  distance waypoints wp1 wp2 = Ok (arc_length waypoints (Z.to_nat wp1) (Z.to_nat wp2)).
Proof.
  intros H1 H2 Hin. unfold distance.
  destruct (Z_lt_le_dec wp2 wp1) as [Hpast|Hle].
  - rewrite range_empty by lia. simpl. now rewrite arc_length_past by lia.
  - destruct Hin as [Hin|Hin]; [|lia].
    rewrite range_cons by lia. cbn [distance_loop].
    rewrite (getitem_in_range waypoints wp1 Waypoint.default) by lia.
    cbn [rbind]. rewrite dl_ok. cbn [rbind]. rewrite euclid_same.
    replace wp1 with (Z.of_nat (Z.to_nat wp1)) at 1 2 by lia.
    replace (wp2 + 1) with (Z.of_nat (Z.to_nat wp1) + 1 + Z.of_nat (Z.to_nat wp2 - Z.to_nat wp1))
      by lia.
    rewrite distance_loop_run by (unfold Py.len in Hin; lia).
    unfold arc_length. f_equal. lra.
Qed.

(** Beyond the end of the window [distance] fails on its subscript. *)
Lemma distance_out_of_window waypoints (wp1 wp2 : Z) :
  0 <= wp1 <= wp2 -> Py.len waypoints <= wp2 ->
  distance waypoints wp1 wp2 = Raise IndexError.
Proof.
  intros H1 H2. unfold distance.
  destruct (Z_lt_le_dec wp1 (Py.len waypoints)) as [Hin|Hout].
  - rewrite range_cons by lia. cbn [distance_loop].
    rewrite (getitem_in_range waypoints wp1 Waypoint.default) by lia.
    cbn [rbind]. rewrite dl_ok. cbn [rbind].
    remember (0 + euclid _ _)%R as acc eqn:Hacc. clear Hacc.
    remember (Z.to_nat (Py.len waypoints - 1 - wp1)) as gap eqn:Hgap.
    revert wp1 acc H1 Hin Hgap.
    induction gap as [|gap IH]; intros wp1 acc H1 Hin Hgap.
    + rewrite range_cons by lia. cbn [distance_loop].
      rewrite (getitem_in_range waypoints wp1 Waypoint.default) by lia.
      cbn [rbind]. rewrite getitem_out_of_range by lia. reflexivity.
    + rewrite range_cons by lia. cbn [distance_loop].
      rewrite (getitem_in_range waypoints wp1 Waypoint.default) by lia.
      rewrite (getitem_in_range waypoints (wp1 + 1) Waypoint.default) by lia.
      cbn [rbind]. rewrite dl_ok. cbn [rbind].
      apply IH; lia.
  - rewrite range_cons by lia. cbn [distance_loop].
    rewrite getitem_out_of_range by lia. reflexivity.
Qed.

(** ** The braking profile *)

Lemma py_min_Rmin a b : Py.min a b = Rmin a b.
Proof.
  unfold Py.min, Rmin. destruct (Rlt_dec b a), (Rle_dec a b); try reflexivity; lra.
Qed.

Lemma braking_speed_nonneg md dist : (0 <= braking_speed md dist)%R.
Proof.
  unfold braking_speed. destruct (Rlt_dec _ 1); [lra|apply sqrt_pos].
Qed.

Lemma braking_speed_monotone md d1 d2 :
  (0 <= md)%R -> (d1 <= d2)%R -> (braking_speed md d1 <= braking_speed md d2)%R.
Proof.
  intros Hmd Hd. unfold braking_speed.
  assert (Hs : (sqrt (2 * md * d1) <= sqrt (2 * md * d2))%R).
  { apply sqrt_le_1_alt. nra. }
  destruct (Rlt_dec (sqrt (2 * md * d1)) 1), (Rlt_dec (sqrt (2 * md * d2)) 1); lra.
Qed.

Lemma braking_speed_at_stop md : braking_speed md 0 = 0%R.
Proof.
  unfold braking_speed. rewrite Rmult_0_r, sqrt_0.
  destruct (Rlt_dec 0 1); [reflexivity|lra].
Qed.

Lemma attr_run {A : Type} (f : WaypointUpdater -> A) s : attr f s = (s, Ok (f s)).
Proof. reflexivity. Qed.

Lemma math_sqrt_ok v : (0 <= v)%R -> Py.math_sqrt v = Ok (sqrt v).
Proof. intros H. unfold Py.math_sqrt. destruct (Rlt_dec v 0); [lra|reflexivity]. Qed.

Lemma enumerate_from {A : Type} (l : list A) : forall (a : Z) (k : nat) (x : A),
  nth_error l k = Some x ->
  nth_error (combine (Py.range a (a + Py.len l)) l) k = Some (a + Z.of_nat k, x).
Proof.
  induction l as [|y l IH]; intros a k x Hk.
  - now destruct k.
  - assert (Hlen : Py.len (y :: l) = 1 + Py.len l) by (unfold Py.len; simpl List.length; lia).
    pose proof (len_nonneg l).
    rewrite range_cons by lia. cbn [combine].
    destruct k as [|k]; simpl in Hk |- *.
    + inversion Hk. f_equal. f_equal. lia.
    + replace (a + Py.len (y :: l)) with (a + 1 + Py.len l) by lia.
      rewrite (IH (a + 1) k x Hk). f_equal. f_equal. lia.
Qed.

Lemma enumerate_nth_error {A : Type} (l : list A) (k : nat) (x : A) :
  nth_error l k = Some x -> nth_error (Py.enumerate l) k = Some (Z.of_nat k, x).
Proof. intros H. exact (enumerate_from l 0 k x H). Qed.

Lemma enumerate_length {A : Type} (l : list A) : List.length (Py.enumerate l) = List.length l.
Proof.
  unfold Py.enumerate, Py.range. rewrite length_combine, length_map, length_seq.
  unfold Py.len. lia.
Qed.

Lemma enumerate_index_nonneg {A : Type} (l : list A) i x :
  In (i, x) (Py.enumerate l) -> 0 <= i.
Proof.
  intros Hin. unfold Py.enumerate in Hin. apply in_combine_l in Hin.
  unfold Py.range in Hin. apply in_map_iff in Hin. destruct Hin as (k & <- & _). lia.
Qed.

Section Braking.

Variable MAX_DECEL : R.
Variable STOP_BUFFER : Z.
Hypothesis MAX_DECEL_nonneg : (0 <= MAX_DECEL)%R.

Variable waypoints : list Waypoint.t.
Variable closest_idx : Z.
Variable s : WaypointUpdater.

Let stop_idx : Z := stop_offset STOP_BUFFER (stopline_wp_idx s) closest_idx.

Lemma stop_offset_nonneg : 0 <= stop_idx.
Proof. unfold stop_idx, stop_offset. lia. Qed.

Lemma decelerate_loop_run :
  stop_idx < Py.len waypoints ->
  forall items temp,
    (forall i wp, In (i, wp) items -> 0 <= i) ->
    Tunable.decelerate_loop MAX_DECEL STOP_BUFFER waypoints closest_idx items temp s
    = (s, Ok (temp ++ map (fun iw => braked MAX_DECEL waypoints stop_idx (fst iw) (snd iw))
                          items)).
Proof.
  intros Hstop. pose proof stop_offset_nonneg as Hnn.
  induction items as [|[i wp] rest IH]; intros temp Hidx.
  - simpl. unfold ret. now rewrite app_nil_r.
  - cbn [Tunable.decelerate_loop].
    rewrite (bind_ok _ _ _ _ _ (attr_run stopline_wp_idx s)).
    fold (stop_offset STOP_BUFFER (stopline_wp_idx s) closest_idx). fold stop_idx.
    assert (Hi : 0 <= i) by (apply (Hidx i wp); now left).
    rewrite (bind_ok _ _ s s (arc_length waypoints (Z.to_nat i) (Z.to_nat stop_idx)))
      by (rewrite lift_run; f_equal; apply distance_ok; auto).
    pose proof (arc_length_nonneg waypoints (Z.to_nat i) (Z.to_nat stop_idx)) as Harc.
    rewrite (bind_ok _ _ s s
               (sqrt (2 * MAX_DECEL * arc_length waypoints (Z.to_nat i) (Z.to_nat stop_idx))))
      by (rewrite lift_run; f_equal; apply math_sqrt_ok; nra).
    rewrite IH by (intros j w Hin; apply (Hidx j w); now right).
    rewrite <- app_assoc. cbn [map app fst snd]. rewrite py_min_Rmin.
    reflexivity.
Qed.

Lemma decelerate_waypoints_run :
  stop_idx < Py.len waypoints ->
  Tunable.decelerate_waypoints MAX_DECEL STOP_BUFFER waypoints closest_idx s
  = (s, Ok (map (fun iw => braked MAX_DECEL waypoints stop_idx (fst iw) (snd iw))
                (Py.enumerate waypoints))).
Proof.
  intros Hstop. unfold Tunable.decelerate_waypoints.
  rewrite decelerate_loop_run; [reflexivity|exact Hstop|].
  intros i wp. apply enumerate_index_nonneg.
Qed.

(** Past the end of the window the first distance already fails. *)
Lemma decelerate_waypoints_out_of_window :
  waypoints <> [] -> Py.len waypoints <= stop_idx ->
  Tunable.decelerate_waypoints MAX_DECEL STOP_BUFFER waypoints closest_idx s
  = (s, Raise IndexError).
Proof.
  intros Hne Hout. unfold Tunable.decelerate_waypoints.
  destruct waypoints as [|wp rest] eqn:Hw; [congruence|].
  assert (Hlen : Py.len (wp :: rest) = 1 + Py.len rest) by (unfold Py.len; simpl List.length; lia).
  pose proof (len_nonneg rest).
  unfold Py.enumerate. rewrite range_cons by lia. cbn [combine Tunable.decelerate_loop].
  rewrite (bind_ok _ _ _ _ _ (attr_run stopline_wp_idx s)).
  fold (stop_offset STOP_BUFFER (stopline_wp_idx s) closest_idx). fold stop_idx.
  apply bind_raise. rewrite lift_run. f_equal.
  apply distance_out_of_window; lia.
Qed.

End Braking.

(** C1 (as amended).  For every window, every localised index and every
    stop-line index whose stop offset
    [max(stopline_wp_idx - closest_idx - 2, 0)] is a position of the window,
    [decelerate_waypoints] returns one fresh waypoint per window point, in
    order, with the point's pose and with speed
    [min(v, originalSpeed)], where [v] is [sqrt(2 * MAX_DECEL * dist)] snapped
    to 0 when below 1, and [dist] is the arc length from the point to the
    stop offset.  No output speed exceeds the original one. *)
Theorem decelerate_waypoints_profile :
  forall (s : WaypointUpdater) (waypoints : list Waypoint.t) (closest_idx : Z),
    let stop_idx := stop_offset STOP_BUFFER (stopline_wp_idx s) closest_idx in
    stop_idx < Py.len waypoints ->
    exists temp : list Waypoint.t,
      decelerate_waypoints waypoints closest_idx s = (s, Ok temp) /\
      List.length temp = List.length waypoints /\
      forall (i : nat) (wp : Waypoint.t),
        nth_error waypoints i = Some wp ->
        exists p : Waypoint.t,
          nth_error temp i = Some p /\
          Waypoint.pose p = Waypoint.pose wp /\
          Waypoint.linear_x p
          = Rmin (braking_speed MAX_DECEL (arc_length waypoints i (Z.to_nat stop_idx)))
                 (Waypoint.linear_x wp) /\
          (Waypoint.linear_x p <= Waypoint.linear_x wp)%R.
Proof.
  intros s waypoints closest_idx stop_idx Hstop.
  assert (Hmd : (0 <= MAX_DECEL)%R) by (unfold MAX_DECEL; lra).
  eexists. split; [|split].
  - unfold decelerate_waypoints. apply (decelerate_waypoints_run _ _ Hmd). exact Hstop.
  - now rewrite length_map, enumerate_length.
  - intros i wp Hnth.
    exists (braked MAX_DECEL waypoints stop_idx (Z.of_nat i) wp).
    split; [|split; [reflexivity|split]].
    + rewrite nth_error_map, (enumerate_nth_error _ _ _ Hnth). reflexivity.
    + unfold braked, Waypoint.linear_x. cbn. now rewrite Nat2Z.id.
    + unfold braked, Waypoint.linear_x. cbn. apply Rmin_r.
Qed.

Lemma decelerate_waypoints_profile_witness :
  stop_offset STOP_BUFFER (stopline_wp_idx node_stop_4) 0 < Py.len uneven_window /\
  exists temp : list Waypoint.t,
    decelerate_waypoints uneven_window 0 node_stop_4 = (node_stop_4, Ok temp) /\
    List.length temp = List.length uneven_window.
Proof.
  assert (H : stop_offset STOP_BUFFER (stopline_wp_idx node_stop_4) 0 < Py.len uneven_window)
    by (unfold Py.len, stop_offset, STOP_BUFFER; simpl; lia).
  split; [exact H|].
  destruct (decelerate_waypoints_profile node_stop_4 uneven_window 0 H) as (temp & Hrun & Hlen & _).
  exists temp. split; assumption.
Defined.

(** C1, as first stated, fails where the stop offset is past the window:
    on a window of one point localised at index 0, a stop line at index 5
    puts the stop offset at 3, and [decelerate_waypoints] ends in an
    [IndexError] instead of returning speeds. *)
Lemma decelerate_waypoints_stop_past_window :
  stop_offset STOP_BUFFER (stopline_wp_idx node_stop_5) 0 = 3 /\
  decelerate_waypoints short_window 0 node_stop_5 = (node_stop_5, Raise IndexError).
Proof.
  split; [reflexivity|].
  unfold decelerate_waypoints. apply decelerate_waypoints_out_of_window.
  - discriminate.
  - unfold Py.len, stop_offset. simpl. lia.
Qed.

(** Speeds after braking, position by position. *)
Lemma braked_speeds_nth md (window : list Waypoint.t) (stop_idx : Z) (i : nat) :
  (i < List.length window)%nat ->
  nth i (speeds (map (fun iw => braked md window stop_idx (fst iw) (snd iw))
                     (Py.enumerate window))) 0%R
  = Rmin (braking_speed md (arc_length window i (Z.to_nat stop_idx)))
         (nth i (speeds window) 0%R).
Proof.
  intros Hi.
  destruct (nth_error window i) as [wp|] eqn:Hwp;
    [|apply nth_error_None in Hwp; lia].
  assert (Horig : nth_error (speeds window) i = Some (Waypoint.linear_x wp)).
  { unfold speeds. now rewrite nth_error_map, Hwp. }
  rewrite (nth_error_nth _ _ 0%R Horig).
  apply nth_error_nth. unfold speeds.
  rewrite !nth_error_map, (enumerate_nth_error _ _ _ Hwp). cbn.
  now rewrite Nat2Z.id.
Qed.

Lemma Rmin_monotone a b c d : (a <= c)%R -> (b <= d)%R -> (Rmin a b <= Rmin c d)%R.
Proof. intros Hac Hbd. unfold Rmin. destruct (Rle_dec a b), (Rle_dec c d); lra. Qed.

Lemma speeds_length wps : List.length (speeds wps) = List.length wps.
Proof. apply length_map. Qed.

(** C9 (as amended).  Where [decelerate_waypoints] is applied with its stop
    offset inside the window, it returns as many speeds as the window has
    points, and: for window positions [i <= j <= stopOffset] whose original
    speeds do not rise ([originalSpeed[j] <= originalSpeed[i]]), the output
    speeds do not rise either ([outputSpeed[j] <= outputSpeed[i]]); and every
    point at or beyond the stop offset whose original speed is not negative
    gets output speed 0. *)
Theorem decelerate_waypoints_monotone :
  forall (s : WaypointUpdater) (waypoints : list Waypoint.t) (closest_idx : Z),
    let stop_idx := stop_offset STOP_BUFFER (stopline_wp_idx s) closest_idx in
    stop_idx < Py.len waypoints ->
    exists temp : list Waypoint.t,
      decelerate_waypoints waypoints closest_idx s = (s, Ok temp) /\
      List.length temp = List.length waypoints /\
      (forall i j : nat,
          (i <= j)%nat -> (j <= Z.to_nat stop_idx)%nat ->
          (nth j (speeds waypoints) 0 <= nth i (speeds waypoints) 0)%R ->
          (nth j (speeds temp) 0 <= nth i (speeds temp) 0)%R) /\
      (forall j : nat,
          (Z.to_nat stop_idx <= j)%nat -> (j < List.length waypoints)%nat ->
          (0 <= nth j (speeds waypoints) 0)%R ->
          nth j (speeds temp) 0%R = 0%R).
Proof.
  intros s waypoints closest_idx stop_idx Hstop.
  assert (Hmd : (0 <= MAX_DECEL)%R) by (unfold MAX_DECEL; lra).
  assert (Hnn : 0 <= stop_idx) by (unfold stop_idx, stop_offset; lia).
  eexists. split; [|split; [|split]].
  - unfold decelerate_waypoints. apply (decelerate_waypoints_run _ _ Hmd). exact Hstop.
  - now rewrite length_map, enumerate_length.
  - intros i j Hij Hjs Horig.
    assert (Hj : (j < List.length waypoints)%nat) by (unfold Py.len in Hstop; lia).
    rewrite !braked_speeds_nth by lia.
    apply Rmin_monotone; [|exact Horig].
    apply braking_speed_monotone; [exact Hmd|].
    now apply arc_length_antitone.
  - intros j Hsj Hj Horig.
    rewrite braked_speeds_nth by lia.
    rewrite arc_length_past by lia. rewrite braking_speed_at_stop.
    now apply Rmin_left.
Qed.

Lemma decelerate_waypoints_monotone_witness :
  stop_offset STOP_BUFFER (stopline_wp_idx node_stop_4) 0 < Py.len uneven_window /\
  exists temp : list Waypoint.t,
    decelerate_waypoints uneven_window 0 node_stop_4 = (node_stop_4, Ok temp) /\
    List.length temp = List.length uneven_window.
Proof.
  assert (H : stop_offset STOP_BUFFER (stopline_wp_idx node_stop_4) 0 < Py.len uneven_window)
    by (unfold Py.len, stop_offset, STOP_BUFFER; simpl; lia).
  split; [exact H|].
  destruct (decelerate_waypoints_monotone node_stop_4 uneven_window 0 H)
    as (temp & Hrun & Hlen & _).
  exists temp. split; assumption.
Defined.

Lemma euclid_on_x_axis (a b : R) :
  (a <= b)%R -> euclid (Point.mk a 0 0) (Point.mk b 0 0) = (b - a)%R.
Proof.
  intros Hab. unfold euclid. cbn. apply sqrt_lem_1; [nra|lra|ring].
Qed.

Lemma braking_speed_value md dist v :
  (1 <= v)%R -> (v * v = 2 * md * dist)%R -> braking_speed md dist = v.
Proof.
  intros Hv Hsq. unfold braking_speed.
  assert (Hs : sqrt (2 * md * dist) = v) by (apply sqrt_lem_1; nra).
  rewrite Hs. destruct (Rlt_dec v 1); [lra|reflexivity].
Qed.

(** C9, as first stated, fails on a window whose target speeds are not
    uniform.  Points at x = 0, 5, 9 with target speeds 1, 10, -1, localised
    at index 0 with the stop line at index 4 (stop offset 2): the output
    speeds are 1, 2, -1.  Positions 0 <= 1 <= stop offset, yet the speed
    rises from 1 to 2; and the point at the stop offset gets -1, not 0. *)
Lemma decelerate_waypoints_speed_rises :
  exists temp : list Waypoint.t,
    stop_offset STOP_BUFFER (stopline_wp_idx node_stop_4) 0 = 2 /\
    decelerate_waypoints uneven_window 0 node_stop_4 = (node_stop_4, Ok temp) /\
    nth 0 (speeds temp) 0%R = 1%R /\
    nth 1 (speeds temp) 0%R = 2%R /\
    nth 2 (speeds temp) 0%R = (-1)%R /\
    (nth 0 (speeds temp) 0 < nth 1 (speeds temp) 0)%R.
Proof.
  assert (Hmd : (0 <= MAX_DECEL)%R) by (unfold MAX_DECEL; lra).
  assert (Hstop : stop_offset STOP_BUFFER (stopline_wp_idx node_stop_4) 0 < Py.len uneven_window)
    by (unfold Py.len, stop_offset, STOP_BUFFER; simpl; lia).
  eexists. split; [reflexivity|]. split.
  - unfold decelerate_waypoints. apply (decelerate_waypoints_run _ _ Hmd). exact Hstop.
  - assert (H0 : nth 0 (speeds (map (fun iw => braked MAX_DECEL uneven_window
                   (stop_offset STOP_BUFFER (stopline_wp_idx node_stop_4) 0) (fst iw) (snd iw))
                   (Py.enumerate uneven_window))) 0%R = 1%R).
    { rewrite braked_speeds_nth by (simpl; lia).
      replace (arc_length uneven_window 0 _) with 9%R.
      - rewrite (braking_speed_value MAX_DECEL 9 3) by (unfold MAX_DECEL; lra).
        change (nth 0 (speeds uneven_window) 0%R) with 1%R. apply Rmin_right. lra.
      - change (Z.to_nat (stop_offset STOP_BUFFER (stopline_wp_idx node_stop_4) 0)) with 2%nat.
        unfold arc_length. cbn [Nat.sub arc_from]. unfold point_at, uneven_window, waypoint_at.
        cbn [nth Waypoint.position Waypoint.pose PoseStamped.pose Pose.position].
        rewrite !euclid_on_x_axis by lra. lra. }
    assert (H1 : nth 1 (speeds (map (fun iw => braked MAX_DECEL uneven_window
                   (stop_offset STOP_BUFFER (stopline_wp_idx node_stop_4) 0) (fst iw) (snd iw))
                   (Py.enumerate uneven_window))) 0%R = 2%R).
    { rewrite braked_speeds_nth by (simpl; lia).
      replace (arc_length uneven_window 1 _) with 4%R.
      - rewrite (braking_speed_value MAX_DECEL 4 2) by (unfold MAX_DECEL; lra).
        change (nth 1 (speeds uneven_window) 0%R) with 10%R. apply Rmin_left. lra.
      - change (Z.to_nat (stop_offset STOP_BUFFER (stopline_wp_idx node_stop_4) 0)) with 2%nat.
        unfold arc_length. cbn [Nat.sub arc_from]. unfold point_at, uneven_window, waypoint_at.
        cbn [nth Waypoint.position Waypoint.pose PoseStamped.pose Pose.position].
        rewrite !euclid_on_x_axis by lra. lra. }
    split; [exact H0|]. split; [exact H1|]. split; [|rewrite H0, H1; lra].
    rewrite braked_speeds_nth by (simpl; lia).
    rewrite arc_length_past by (simpl; lia). rewrite braking_speed_at_stop.
    change (nth 2 (speeds uneven_window) 0%R) with (-1)%R. apply Rmin_right. lra.
Qed.

(** ** The scenario of the specification *)

Lemma nearest_closer q p rest i bd bi :
  (KDTree.sqdist q p < bd)%R ->
  KDTree.nearest q (p :: rest) i bd bi = KDTree.nearest q rest (i + 1) (KDTree.sqdist q p) i.
Proof. intros H. simpl. destruct (Rlt_dec (KDTree.sqdist q p) bd); [reflexivity|contradiction]. Qed.

Lemma nearest_not_closer q p rest i bd bi :
  (bd <= KDTree.sqdist q p)%R ->
  KDTree.nearest q (p :: rest) i bd bi = KDTree.nearest q rest (i + 1) bd bi.
Proof. intros H. simpl. destruct (Rlt_dec (KDTree.sqdist q p) bd); [lra|reflexivity]. Qed.

Lemma scenario_node_pose : pose scenario_node = Some (car_at 1 0).
Proof. reflexivity. Qed.

Lemma scenario_node_coordinates : waypoints_2d scenario_node = Some scenario_coordinates.
Proof. reflexivity. Qed.

Lemma scenario_node_tree : waypoint_tree scenario_node = Some (KDTree.mk scenario_coordinates).
Proof. reflexivity. Qed.

Lemma scenario_node_path : base_waypoints scenario_node = Some scenario_path.
Proof. reflexivity. Qed.

Lemma scenario_nearest : snd (KDTree.query (KDTree.mk scenario_coordinates) (1, 0)%R) = 1.
Proof.
  unfold KDTree.query, scenario_coordinates. cbn [KDTree.data].
  rewrite nearest_closer by (unfold KDTree.sqdist; cbn [fst snd]; lra).
  rewrite !nearest_not_closer by (unfold KDTree.sqdist; cbn [fst snd]; lra).
  reflexivity.
Qed.

Lemma scenario_localised : get_closest_waypoint_idx scenario_node = (scenario_node, Ok 1).
Proof.
  rewrite (get_closest_waypoint_idx_run scenario_node (car_at 1 0) scenario_coordinates
             scenario_node_pose scenario_node_coordinates scenario_node_tree)
    by discriminate.
  cbv zeta. change (Point.x (Pose.position (PoseStamped.pose (car_at 1 0)))) with 1%R.
  change (Point.y (Pose.position (PoseStamped.pose (car_at 1 0)))) with 0%R.
  rewrite scenario_nearest.
  change (nth (Z.to_nat 1) scenario_coordinates (0, 0)%R) with (1, 0)%R.
  change (nth (Z.to_nat (if 1 =? 0 then Py.len scenario_coordinates - 1 else 1 - 1))
            scenario_coordinates (0, 0)%R) with (0, 0)%R.
  unfold np_dot, np_sub. cbn [fst snd].
  match goal with |- context [Rlt_dec 0 ?v] => destruct (Rlt_dec 0 v) as [Hpos|_] end;
    [exfalso; lra|reflexivity].
Qed.

Lemma get_closest_waypoint_idx_resolves_witness :
  pose scenario_node = Some (car_at 1 0) /\
  waypoints_2d scenario_node = Some scenario_coordinates /\
  waypoint_tree scenario_node = Some (KDTree.mk scenario_coordinates) /\
  scenario_coordinates <> [] /\
  0 <= snd (KDTree.query (KDTree.mk scenario_coordinates) (1, 0)%R)
    < Py.len scenario_coordinates.
Proof.
  assert (Hp : pose scenario_node = Some (car_at 1 0)) by reflexivity.
  assert (Hc : waypoints_2d scenario_node = Some scenario_coordinates) by reflexivity.
  assert (Ht : waypoint_tree scenario_node = Some (KDTree.mk scenario_coordinates))
    by reflexivity.
  assert (Hn : scenario_coordinates <> []) by discriminate.
  repeat (split; [assumption|]).
  exact (proj1 (get_closest_waypoint_idx_resolves scenario_node (car_at 1 0)
                  scenario_coordinates Hp Hc Ht Hn)).
Defined.

Lemma scenario_arc_lengths :
  arc_length scenario_window 0 2 = 2%R /\
  arc_length scenario_window 1 2 = 1%R /\
  arc_length scenario_window 2 2 = 0%R.
Proof.
  unfold arc_length. cbn [Nat.sub arc_from].
  unfold point_at, scenario_window, waypoint_at.
  cbn [nth Waypoint.position Waypoint.pose PoseStamped.pose Pose.position].
  rewrite !euclid_on_x_axis by lra. repeat split; lra.
Qed.

Lemma sqrt_2_bounds : (1.41 < sqrt 2 < 1.42)%R.
Proof.
  split.
  - rewrite <- (sqrt_square 1.41) by lra. apply sqrt_lt_1_alt. lra.
  - rewrite <- (sqrt_square 1.42) by lra. apply sqrt_lt_1_alt. lra.
Qed.

Lemma scenario_braking_speeds :
  braking_speed (1 / 2) 2 = sqrt 2 /\
  braking_speed (1 / 2) 1 = 1%R /\
  braking_speed (1 / 2) 0 = 0%R.
Proof.
  split; [|split].
  - unfold braking_speed. replace (2 * (1 / 2) * 2)%R with 2%R by lra.
    pose proof sqrt_2_bounds. destruct (Rlt_dec (sqrt 2) 1); [lra|reflexivity].
  - apply braking_speed_value; lra.
  - apply braking_speed_at_stop.
Qed.

Lemma scenario_braked :
  Tunable.decelerate_waypoints (1 / 2) 0 scenario_window 1 scenario_node
  = (scenario_node,
     Ok (map (fun iw => braked (1 / 2) scenario_window 2 (fst iw) (snd iw))
             (Py.enumerate scenario_window))).
Proof.
  assert (Hmd : (0 <= 1 / 2)%R) by lra.
  apply (decelerate_waypoints_run (1 / 2) 0 Hmd scenario_window 1 scenario_node).
  unfold Py.len, stop_offset. simpl. lia.
Qed.

Lemma scenario_speeds :
  speeds (map (fun iw => braked (1 / 2) scenario_window 2 (fst iw) (snd iw))
              (Py.enumerate scenario_window))
  = [sqrt 2; 1; 0]%R.
Proof.
  change (Py.enumerate scenario_window)
    with [(0, waypoint_at 1 10); (1, waypoint_at 2 10); (2, waypoint_at 3 10)].
  destruct scenario_arc_lengths as (A0 & A1 & A2).
  destruct scenario_braking_speeds as (B0 & B1 & B2).
  pose proof sqrt_2_bounds.
  unfold speeds, braked. cbn [map fst snd].
  change (Z.to_nat 0) with 0%nat. change (Z.to_nat 1) with 1%nat.
  change (Z.to_nat 2) with 2%nat.
  rewrite A0, A1, A2, B0, B1, B2.
  unfold Waypoint.linear_x, Waypoint.set_linear_x, waypoint_at.
  cbn [Waypoint.twist TwistStamped.twist Twist.linear Vector3.x Waypoint.set_pose
       Waypoint.default].
  rewrite !Rmin_left by lra. reflexivity.
Qed.

(** C5 (as amended).  In the scenario (five collinear points at x = 0..4
    with target speed 10, look-ahead 3, car on point 1, stop line at index
    3, no buffer, deceleration 0.5): localisation returns 1; the published
    window is points 1, 2, 3; the stop offset is 2; the arc distances to
    it, as [distance] computes them, are 2, 1, 0; and the output speeds are
    sqrt 2 (about 1.41), 1 and 0.  The point whose computed speed is exactly
    1 keeps it, since only speeds strictly below 1 are snapped to 0.  Each
    output speed is at most the original 10. *)
Theorem concrete_scenario :
  get_closest_waypoint_idx scenario_node = (scenario_node, Ok 1) /\
  Tunable.publish_waypoints 3 1 scenario_node
  = publish (Lane.mk (Lane.header scenario_path) scenario_window) scenario_node /\
  stop_offset 0 (stopline_wp_idx scenario_node) 1 = 2 /\
  distance scenario_window 0 2 = Ok 2%R /\
  distance scenario_window 1 2 = Ok 1%R /\
  distance scenario_window 2 2 = Ok 0%R /\
  exists temp : list Waypoint.t,
    Tunable.decelerate_waypoints (1 / 2) 0 scenario_window 1 scenario_node
    = (scenario_node, Ok temp) /\
    speeds temp = [sqrt 2; 1; 0]%R /\
    (1.41 < sqrt 2 < 1.42)%R /\
    Forall2 Rle (speeds temp) (speeds scenario_window).
Proof.
  destruct scenario_arc_lengths as (A0 & A1 & A2).
  pose proof sqrt_2_bounds as Hsqrt.
  split; [exact scenario_localised|]. split.
  { rewrite (publish_waypoints_run 3 _ _ 1 scenario_node_path). reflexivity. }
  split; [reflexivity|].
  split; [|split; [|split]].
  - rewrite distance_ok by (unfold Py.len; simpl; lia). exact (f_equal Ok A0).
  - rewrite distance_ok by (unfold Py.len; simpl; lia). exact (f_equal Ok A1).
  - rewrite distance_ok by (unfold Py.len; simpl; lia). exact (f_equal Ok A2).
  - eexists. split; [exact scenario_braked|]. split; [exact scenario_speeds|].
    split; [exact Hsqrt|].
    rewrite scenario_speeds.
    change (speeds scenario_window) with [10; 10; 10]%R.
    repeat constructor; lra.
Qed.

(** C5, as first stated, gives the output speeds as about 1.41, 0, 0.  The
    second one is 1: the computed speed sqrt(2 * 0.5 * 1) is exactly 1, which
    is not below 1, so it is not snapped to 0. *)
Lemma concrete_scenario_second_speed :
  exists temp : list Waypoint.t,
    Tunable.decelerate_waypoints (1 / 2) 0 scenario_window 1 scenario_node
    = (scenario_node, Ok temp) /\
    nth 1 (speeds temp) 0%R = 1%R /\
    (0 < nth 1 (speeds temp) 0)%R.
Proof.
  eexists. split; [exact scenario_braked|].
  rewrite scenario_speeds. cbn [nth]. split; [reflexivity|lra].
Qed.

(** ** The tick and the stop line *)

Lemma name_unbound locals n s :
  (if in_dec string_dec n (locals ++ module_names) then true else false) = false ->
  name locals n s = (s, Raise NameError).
Proof.
  intros H. unfold name. destruct (in_dec string_dec n (locals ++ module_names));
    [discriminate|reflexivity].
Qed.

Lemma generate_lane_raises s : generate_lane s = (s, Raise NameError).
Proof.
  unfold generate_lane. apply bind_raise. apply name_unbound. reflexivity.
Qed.

Section Tick.

Variable LOOKAHEAD : Z.
Variable s : WaypointUpdater.
Variable msg : PoseStamped.t.
Variable lane : Lane.t.
Variable pts : list (R * R).

Hypothesis pose_stored : pose s = Some msg.
Hypothesis path_stored : base_waypoints s = Some lane.
Hypothesis coordinates_stored : waypoints_2d s = Some pts.
Hypothesis tree_built : waypoint_tree s = Some (KDTree.mk pts).
Hypothesis path_not_empty : pts <> [].

(** A tick publishes the slice of the stored path that starts where the car
    was localised; nothing else enters the message. *)
Lemma loop_body_run :
  exists closest : Z,
    get_closest_waypoint_idx s = (s, Ok closest) /\
    Tunable.loop_body LOOKAHEAD s
    = publish (Lane.mk (Lane.header lane)
                 (Py.slice (Lane.waypoints lane) closest (closest + LOOKAHEAD))) s.
Proof.
  pose proof (get_closest_waypoint_idx_run s msg pts pose_stored coordinates_stored
                tree_built path_not_empty) as Hrun.
  cbv zeta in Hrun. eexists. split; [exact Hrun|].
  unfold Tunable.loop_body.
  rewrite (bind_ok _ _ _ _ _ (attr_run pose s)).
  rewrite (bind_ok _ _ _ _ _ (attr_run base_waypoints s)).
  rewrite pose_stored, path_stored.
  rewrite (bind_ok _ _ _ _ _ Hrun).
  apply publish_waypoints_run. exact path_stored.
Qed.

End Tick.

Lemma slice_map {A B : Type} (f : A -> B) (l : list A) (lo hi : Z) :
  map f (Py.slice l lo hi) = Py.slice (map f l) lo hi.
Proof.
  unfold Py.slice, Py.len. rewrite length_map, skipn_map, firstn_map. reflexivity.
Qed.

(** C8. Whatever index outside [0, len(path)) the stop-line stream
    delivers, [traffic_cb] returns normally, and the next tick publishes
    what it publishes when the stop line is none (-1): the slice of the
    stored path from the localised index on, whose speeds are the path's
    original speeds.  (The tick stores the index and never reads it, so the
    range of the index plays no part in the proof.) *)
Theorem stop_line_out_of_range_as_none :
  forall (s : WaypointUpdater) (msg : PoseStamped.t) (lane : Lane.t)
         (pts : list (R * R)) (idx : Z),
    pose s = Some msg ->
    base_waypoints s = Some lane ->
    waypoints_2d s = Some pts ->
    waypoint_tree s = Some (KDTree.mk pts) ->
    pts <> [] ->
    idx < 0 \/ Py.len (Lane.waypoints lane) <= idx ->
    outcome (traffic_cb idx) s = Ok tt /\
    exists (closest : Z) (window : list Waypoint.t),
      window = Py.slice (Lane.waypoints lane) closest (closest + LOOKAHEAD_WPS) /\
      loop_body (exec (traffic_cb idx) s)
      = publish (Lane.mk (Lane.header lane) window) (exec (traffic_cb idx) s) /\
      loop_body (exec (traffic_cb (-1)) s)
      = publish (Lane.mk (Lane.header lane) window) (exec (traffic_cb (-1)) s) /\
      speeds window
      = Py.slice (speeds (Lane.waypoints lane)) closest (closest + LOOKAHEAD_WPS).
Proof.
  intros s msg lane pts idx Hpose Hpath Hc Ht Hne _.
  split; [reflexivity|].
  destruct (loop_body_run LOOKAHEAD_WPS (exec (traffic_cb idx) s) msg lane pts
              Hpose Hpath Hc Ht Hne) as (c1 & Hloc1 & Hrun1).
  destruct (loop_body_run LOOKAHEAD_WPS (exec (traffic_cb (-1)) s) msg lane pts
              Hpose Hpath Hc Ht Hne) as (c2 & Hloc2 & Hrun2).
  pose proof (get_closest_waypoint_idx_run _ msg pts
                (Hpose : pose (exec (traffic_cb idx) s) = Some msg) Hc Ht Hne) as E1.
  pose proof (get_closest_waypoint_idx_run _ msg pts
                (Hpose : pose (exec (traffic_cb (-1)) s) = Some msg) Hc Ht Hne) as E2.
  cbv zeta in E1, E2. rewrite E1 in Hloc1. rewrite E2 in Hloc2.
  assert (Hsame : c1 = c2) by congruence.
  subst c2.
  exists c1, (Py.slice (Lane.waypoints lane) c1 (c1 + LOOKAHEAD_WPS)).
  split; [reflexivity|]. split; [exact Hrun1|]. split; [exact Hrun2|].
  apply slice_map.
Qed.

Lemma stop_line_out_of_range_as_none_witness :
  (7 < 0 \/ Py.len (Lane.waypoints scenario_path) <= 7) /\
  outcome (traffic_cb 7) scenario_node = Ok tt.
Proof.
  assert (Hp : pose scenario_node = Some (car_at 1 0)) by reflexivity.
  assert (Hb : base_waypoints scenario_node = Some scenario_path) by reflexivity.
  assert (Hc : waypoints_2d scenario_node = Some scenario_coordinates) by reflexivity.
  assert (Ht : waypoint_tree scenario_node = Some (KDTree.mk scenario_coordinates))
    by reflexivity.
  assert (Hn : scenario_coordinates <> []) by discriminate.
  assert (Hi : 7 < 0 \/ Py.len (Lane.waypoints scenario_path) <= 7)
    by (right; unfold Py.len; simpl; lia).
  split; [exact Hi|].
  exact (proj1 (stop_line_out_of_range_as_none scenario_node (car_at 1 0) scenario_path
                  scenario_coordinates 7 Hp Hb Hc Ht Hn Hi)).
Defined.

Lemma scenario_tail_braked :
  decelerate_waypoints scenario_tail 1 scenario_node
  = (scenario_node,
     Ok (map (fun iw => braked MAX_DECEL scenario_tail 0 (fst iw) (snd iw))
             (Py.enumerate scenario_tail))).
Proof.
  assert (Hmd : (0 <= MAX_DECEL)%R) by (unfold MAX_DECEL; lra).
  apply (decelerate_waypoints_run MAX_DECEL STOP_BUFFER Hmd scenario_tail 1 scenario_node).
  unfold Py.len, stop_offset, STOP_BUFFER. simpl. lia.
Qed.

Lemma scenario_tail_braked_speeds :
  speeds (map (fun iw => braked MAX_DECEL scenario_tail 0 (fst iw) (snd iw))
              (Py.enumerate scenario_tail))
  = [0; 0; 0; 0]%R.
Proof.
  change (Py.enumerate scenario_tail)
    with [(0, waypoint_at 1 10); (1, waypoint_at 2 10); (2, waypoint_at 3 10);
          (3, waypoint_at 4 10)].
  unfold speeds, braked. cbn [map fst snd].
  rewrite !arc_length_past by (simpl; lia). rewrite braking_speed_at_stop.
  unfold Waypoint.linear_x, Waypoint.set_linear_x, waypoint_at.
  cbn [Waypoint.twist TwistStamped.twist Twist.linear Vector3.x Waypoint.set_pose
       Waypoint.default].
  rewrite !Rmin_left by lra. reflexivity.
Qed.

(** C4: what the code does where the claim asks for braking.  The lane
    generation that holds the claimed branch, [generate_lane], raises
    [NameError] in every state, and the loop does not call it.  In the
    scenario node (stop line 3, car localised at 1, so the stop line is
    active and inside the window) the tick publishes points 1 to 4 at their
    original 10 m/s, where [decelerate_waypoints] on that window gives 0 for
    every point. *)
Theorem tick_skips_braking :
  (forall s : WaypointUpdater, generate_lane s = (s, Raise NameError)) /\
  stopline_wp_idx scenario_node = 3 /\
  get_closest_waypoint_idx scenario_node = (scenario_node, Ok 1) /\
  loop_body scenario_node
  = publish (Lane.mk (Lane.header scenario_path) scenario_tail) scenario_node /\
  speeds scenario_tail = [10; 10; 10; 10]%R /\
  exists temp : list Waypoint.t,
    decelerate_waypoints scenario_tail 1 scenario_node = (scenario_node, Ok temp) /\
    speeds temp = [0; 0; 0; 0]%R.
Proof.
  split; [exact generate_lane_raises|]. split; [reflexivity|].
  split; [exact scenario_localised|]. split.
  - destruct (loop_body_run LOOKAHEAD_WPS scenario_node (car_at 1 0) scenario_path
                scenario_coordinates scenario_node_pose scenario_node_path
                scenario_node_coordinates scenario_node_tree ltac:(discriminate))
      as (closest & Hloc & Hrun).
    rewrite scenario_localised in Hloc. inversion Hloc; subst closest.
    unfold loop_body. rewrite Hrun. reflexivity.
  - split; [reflexivity|].
    eexists. split; [exact scenario_tail_braked|exact scenario_tail_braked_speeds].
Qed.

(** ** Path deliveries *)

(** Once the node holds a non-empty coordinate list, a delivery replaces
    the stored path and touches nothing else. *)
Lemma waypoints_cb_again s lane :
  Py.falsy_list (waypoints_2d s) = false ->
  waypoints_cb lane s
  = (mkWaypointUpdater (final_waypoints_pub s) (stopline_wp_idx s) (pose s) (Some lane)
       (waypoints_2d s) (waypoint_tree s),
     Ok tt).
Proof.
  intros Htruthy. unfold waypoints_cb, bind, set_base_waypoints, attr. cbn.
  rewrite Htruthy. reflexivity.
Qed.

(** C6: what the code does on a second delivery.  After [first_path] (one
    point) has been delivered to a fresh node, the delivery of [second_path]
    (two other points) replaces the stored path, while the coordinate list
    and the tree stay those of the first path. *)
Theorem second_delivery_replaces_path :
  let s1 := exec (waypoints_cb first_path) init in
  let s2 := exec (waypoints_cb second_path) s1 in
  outcome (waypoints_cb first_path) init = Ok tt /\
  base_waypoints s1 = Some first_path /\
  waypoints_2d s1 = Some (coordinates first_path) /\
  waypoint_tree s1 = Some (KDTree.mk (coordinates first_path)) /\
  base_waypoints s2 = Some second_path /\
  waypoints_2d s2 = Some (coordinates first_path) /\
  waypoint_tree s2 = Some (KDTree.mk (coordinates first_path)) /\
  List.length (Lane.waypoints first_path) = 1%nat /\
  List.length (Lane.waypoints second_path) = 2%nat.
Proof. cbv zeta. repeat split. Qed.

Lemma waypoints_cb_empty s lane :
  Lane.waypoints lane = [] ->
  Py.falsy_list (waypoints_2d s) = true ->
  waypoints_cb lane s
  = (mkWaypointUpdater (final_waypoints_pub s) (stopline_wp_idx s) (pose s) (Some lane)
       (Some []) (waypoint_tree s),
     Raise ValueError).
Proof.
  intros Hempty Hfalsy. unfold waypoints_cb, bind, set_base_waypoints, attr. cbn.
  rewrite Hfalsy, Hempty. reflexivity.
Qed.

Lemma waypoints_cb_first s lane :
  Lane.waypoints lane <> [] ->
  Py.falsy_list (waypoints_2d s) = true ->
  waypoints_cb lane s
  = (mkWaypointUpdater (final_waypoints_pub s) (stopline_wp_idx s) (pose s) (Some lane)
       (Some (coordinates lane)) (Some (KDTree.mk (coordinates lane))),
     Ok tt).
Proof.
  intros Hne Hfalsy. unfold waypoints_cb, bind, set_base_waypoints, attr. cbn.
  rewrite Hfalsy. unfold coordinates.
  destruct (Lane.waypoints lane) as [|wp rest]; [congruence|reflexivity].
Qed.

(** What a delivery of a path with zero points does to a node that holds
    no coordinates yet: the path becomes the stored path, the coordinate
    list becomes the empty list, and the construction of the index fails on
    it, so the callback ends in that error with the tree as it was.  The
    pose, the stop-line index and the outbox are untouched, and a later
    delivery of a path with points builds the coordinate list and the
    tree. *)
Lemma empty_path_delivery :
  forall (s : WaypointUpdater) (lane : Lane.t),
    Lane.waypoints lane = [] ->
    Py.falsy_list (waypoints_2d s) = true ->
    let s' := exec (waypoints_cb lane) s in
    outcome (waypoints_cb lane) s = Raise ValueError /\
    base_waypoints s' = Some lane /\
    waypoints_2d s' = Some [] /\
    waypoint_tree s' = waypoint_tree s /\
    pose s' = pose s /\
    stopline_wp_idx s' = stopline_wp_idx s /\
    final_waypoints_pub s' = final_waypoints_pub s /\
    forall lane' : Lane.t,
      Lane.waypoints lane' <> [] ->
      let s'' := exec (waypoints_cb lane') s' in
      outcome (waypoints_cb lane') s' = Ok tt /\
      base_waypoints s'' = Some lane' /\
      waypoints_2d s'' = Some (coordinates lane') /\
      waypoint_tree s'' = Some (KDTree.mk (coordinates lane')).
Proof.
  intros s lane Hempty Hfalsy s'.
  unfold s', exec, outcome. rewrite (waypoints_cb_empty s lane Hempty Hfalsy).
  cbn [fst snd].
  repeat (split; [reflexivity|]).
  intros lane' Hne. cbv zeta. unfold exec, outcome.
  rewrite (waypoints_cb_first _ lane' Hne) by reflexivity.
  repeat split.
Qed.

(** C7: what the code does where the claim asks for a rejected delivery
    and skipped ticks.  A path with zero points delivered to a fresh node
    is stored, the node leaves the state without a path, and the callback
    ends in the error of the index construction with no tree built.  Once a
    pose has arrived the guard of the loop lets the tick through, and the
    loop, which is to run until shutdown, ends in its first iteration with
    an [AttributeError] for want of a tree, nothing published. *)
Lemma empty_path_is_stored :
  let s1 := exec (waypoints_cb Lane.default) init in
  let s2 := exec (pose_cb (car_at 0 0)) s1 in
  base_waypoints init = None /\
  outcome (waypoints_cb Lane.default) init = Raise ValueError /\
  base_waypoints s1 = Some Lane.default /\
  waypoints_2d s1 = Some [] /\
  waypoint_tree s1 = None /\
  loop_body s2 = (s2, Raise AttributeError) /\
  loop 1 s2 = (s2, Raise AttributeError) /\
  final_waypoints_pub s2 = [].
Proof. cbv zeta. repeat split. Qed.

(** * Further properties of the node *)

(** ** [distance] *)

Lemma arc_length_longer window i stop stop' :
  (stop <= stop')%nat -> (arc_length window i stop <= arc_length window i stop')%R.
Proof.
  intros Hle. unfold arc_length.
  replace (stop' - i)%nat with ((stop - i) + (stop' - i - (stop - i)))%nat by lia.
  rewrite arc_from_split.
  pose proof (arc_from_nonneg window (stop' - i - (stop - i)) (i + (stop - i))). lra.
Qed.

(** X1. For window positions [wp1], [wp2] that are not negative,
    [distance] is settled by where [wp2] lies: behind [wp1] it returns 0
    without reading the window (so also on an empty one); from [wp1] up to
    the last position it returns the arc length, which is not negative and
    is 0 from a position to itself; at or past the end of the window it
    raises [IndexError]. *)
Theorem distance_outcome :
  forall (waypoints : list Waypoint.t) (wp1 wp2 : Z),
    0 <= wp1 -> 0 <= wp2 ->
    (wp2 < wp1 -> distance waypoints wp1 wp2 = Ok 0%R) /\
    (wp1 <= wp2 < Py.len waypoints ->
     distance waypoints wp1 wp2
     = Ok (arc_length waypoints (Z.to_nat wp1) (Z.to_nat wp2)) /\
     (0 <= arc_length waypoints (Z.to_nat wp1) (Z.to_nat wp2))%R /\
     (wp1 = wp2 -> distance waypoints wp1 wp2 = Ok 0%R)) /\
    (wp1 <= wp2 -> Py.len waypoints <= wp2 ->
     distance waypoints wp1 wp2 = Raise IndexError).
Proof.
  intros waypoints wp1 wp2 H1 H2. split; [|split].
  - intros Hpast. rewrite distance_ok by lia. now rewrite arc_length_past by lia.
  - intros Hin. split; [apply distance_ok; lia|]. split; [apply arc_length_nonneg|].
    intros ->. rewrite distance_ok by lia. now rewrite arc_length_past by lia.
  - intros Hle Hout. apply distance_out_of_window; lia.
Qed.

Lemma distance_outcome_witness :
  0 <= 0 /\ 0 <= 3 /\ distance short_window 0 3 = Raise IndexError.
Proof.
  assert (H1 : 0 <= 0) by lia. assert (H2 : 0 <= 3) by lia.
  split; [exact H1|]. split; [exact H2|].
  apply (proj2 (proj2 (distance_outcome short_window 0 3 H1 H2))).
  - lia.
  - unfold Py.len. simpl. lia.
Defined.

(** X2. A longer stretch of the window is never a shorter way: for
    positions [a <= b <= c] inside the window, [distance(a, c)] is at least
    [distance(a, b)] and at least [distance(b, c)], and none of the three is
    negative. *)
Theorem distance_monotone :
  forall (waypoints : list Waypoint.t) (a b c : Z),
    0 <= a <= b -> b <= c < Py.len waypoints ->
    exists dab dbc dac : R,
      distance waypoints a b = Ok dab /\
      distance waypoints b c = Ok dbc /\
      distance waypoints a c = Ok dac /\
      (0 <= dab <= dac)%R /\ (0 <= dbc <= dac)%R.
Proof.
  intros waypoints a b c Hab Hbc.
  exists (arc_length waypoints (Z.to_nat a) (Z.to_nat b)),
         (arc_length waypoints (Z.to_nat b) (Z.to_nat c)),
         (arc_length waypoints (Z.to_nat a) (Z.to_nat c)).
  rewrite !distance_ok by lia.
  repeat split; try apply arc_length_nonneg.
  - apply arc_length_longer. lia.
  - apply arc_length_antitone; lia.
Qed.

Lemma distance_monotone_witness :
  0 <= 0 <= 1 /\ 1 <= 2 < Py.len uneven_window /\
  exists dac : R, distance uneven_window 0 2 = Ok dac.
Proof.
  assert (H1 : 0 <= 0 <= 1) by lia.
  assert (H2 : 1 <= 2 < Py.len uneven_window) by (unfold Py.len; simpl; lia).
  split; [exact H1|]. split; [exact H2|].
  destruct (distance_monotone uneven_window 0 1 2 H1 H2) as (dab & dbc & dac & _ & _ & H & _).
  exists dac. exact H.
Defined.

(** ** [decelerate_waypoints] *)

Lemma MAX_DECEL_nonneg : (0 <= MAX_DECEL)%R.
Proof. unfold MAX_DECEL. lra. Qed.

(** X4. [decelerate_waypoints] never changes the node, and its outcome is
    settled by the stop offset [max(stopline_wp_idx - closest_idx - 2, 0)]:
    an empty window gives an empty list whatever the stop line; a stop offset
    inside the window gives one waypoint per window point; a stop offset at
    or past the end of a non-empty window raises [IndexError]. *)
Theorem decelerate_waypoints_outcome :
  forall (s : WaypointUpdater) (waypoints : list Waypoint.t) (closest_idx : Z),
    let stop_idx := stop_offset STOP_BUFFER (stopline_wp_idx s) closest_idx in
    exec (decelerate_waypoints waypoints closest_idx) s = s /\
    (waypoints = [] -> outcome (decelerate_waypoints waypoints closest_idx) s = Ok []) /\
    (stop_idx < Py.len waypoints ->
     exists temp : list Waypoint.t,
       outcome (decelerate_waypoints waypoints closest_idx) s = Ok temp /\
       List.length temp = List.length waypoints) /\
    (waypoints <> [] -> Py.len waypoints <= stop_idx ->
     outcome (decelerate_waypoints waypoints closest_idx) s = Raise IndexError).
Proof.
  intros s waypoints closest_idx stop_idx.
  assert (Hin : stop_idx < Py.len waypoints ->
                decelerate_waypoints waypoints closest_idx s
                = (s, Ok (map (fun iw => braked MAX_DECEL waypoints stop_idx (fst iw) (snd iw))
                              (Py.enumerate waypoints)))).
  { intros H. apply (decelerate_waypoints_run _ _ MAX_DECEL_nonneg). exact H. }
  assert (Hout : waypoints <> [] -> Py.len waypoints <= stop_idx ->
                 decelerate_waypoints waypoints closest_idx s = (s, Raise IndexError)).
  { intros Hne H. now apply decelerate_waypoints_out_of_window. }
  unfold exec, outcome. split; [|split; [|split]].
  - destruct waypoints as [|wp rest]; [reflexivity|].
    destruct (Z_lt_le_dec stop_idx (Py.len (wp :: rest))) as [H|H].
    + now rewrite (Hin H).
    + now rewrite (Hout ltac:(discriminate) H).
  - intros ->. reflexivity.
  - intros H. rewrite (Hin H). eexists. split; [reflexivity|].
    now rewrite length_map, enumerate_length.
  - intros Hne H. now rewrite (Hout Hne H).
Qed.

Section Braked.

Variable md : R.
Variable stop_idx : Z.

(** The window after braking. *)
Let B (window : list Waypoint.t) : list Waypoint.t :=
  map (fun iw => braked md window stop_idx (fst iw) (snd iw)) (Py.enumerate window).

Lemma braked_nth_error window (i : nat) :
  nth_error (B window) i
  = option_map (braked md window stop_idx (Z.of_nat i)) (nth_error window i).
Proof.
  unfold B. rewrite nth_error_map.
  destruct (nth_error window i) as [wp|] eqn:Hwp.
  - now rewrite (enumerate_nth_error _ _ _ Hwp).
  - apply nth_error_None in Hwp.
    destruct (nth_error (Py.enumerate window) i) eqn:He; [|reflexivity].
    assert (Hlt : (i < List.length (Py.enumerate window))%nat)
      by (apply nth_error_Some; congruence).
    rewrite enumerate_length in Hlt. lia.
Qed.

Lemma braked_point_at window (k : nat) : point_at (B window) k = point_at window k.
Proof.
  unfold point_at.
  destruct (nth_error window k) as [wp|] eqn:Hwp.
  - rewrite (nth_error_nth window k Waypoint.default Hwp).
    assert (H : nth_error (B window) k = Some (braked md window stop_idx (Z.of_nat k) wp))
      by (now rewrite braked_nth_error, Hwp).
    now rewrite (nth_error_nth _ k Waypoint.default H).
  - assert (H : nth_error (B window) k = None) by (now rewrite braked_nth_error, Hwp).
    apply nth_error_None in Hwp. apply nth_error_None in H.
    now rewrite !nth_overflow by assumption.
Qed.

Lemma braked_arc_from window n : forall i, arc_from (B window) i n = arc_from window i n.
Proof.
  induction n as [|n IH]; intros i; simpl; [reflexivity|].
  now rewrite IH, !braked_point_at.
Qed.

Lemma braked_twice window : B (B window) = B window.
Proof.
  apply nth_error_ext. intros i. rewrite (braked_nth_error (B window)).
  rewrite braked_nth_error. destruct (nth_error window i) as [wp|]; [|reflexivity].
  cbn [option_map]. f_equal. unfold braked at 1 3.
  unfold arc_length. rewrite braked_arc_from. fold (arc_length window (Z.to_nat (Z.of_nat i)) (Z.to_nat stop_idx)).
  set (v := braking_speed md _).
  unfold braked, Waypoint.set_linear_x, Waypoint.set_pose, Waypoint.linear_x. cbn.
  fold (arc_length window (Z.to_nat (Z.of_nat i)) (Z.to_nat stop_idx)). fold v.
  do 4 f_equal. unfold Rmin.
  destruct (Rle_dec v (Vector3.x (Twist.linear (TwistStamped.twist (Waypoint.twist wp)))));
    destruct (Rle_dec v _); try reflexivity; lra.
Qed.

Lemma braked_length window : List.length (B window) = List.length window.
Proof. unfold B. now rewrite length_map, enumerate_length. Qed.

End Braked.

(** X5. Braking is idempotent: with the stop offset inside the window,
    running [decelerate_waypoints] on its own result (same localised index,
    same stop line) returns that result again. *)
Theorem decelerate_waypoints_idempotent :
  forall (s : WaypointUpdater) (waypoints : list Waypoint.t) (closest_idx : Z),
    stop_offset STOP_BUFFER (stopline_wp_idx s) closest_idx < Py.len waypoints ->
    exists temp : list Waypoint.t,
      decelerate_waypoints waypoints closest_idx s = (s, Ok temp) /\
      decelerate_waypoints temp closest_idx s = (s, Ok temp).
Proof.
  intros s waypoints closest_idx Hstop.
  eexists. split.
  - apply (decelerate_waypoints_run _ _ MAX_DECEL_nonneg). exact Hstop.
  - unfold decelerate_waypoints.
    rewrite (decelerate_waypoints_run _ _ MAX_DECEL_nonneg).
    + cbv zeta. now rewrite braked_twice.
    + cbv zeta. unfold Py.len in *. now rewrite braked_length.
Qed.

Lemma decelerate_waypoints_idempotent_witness :
  stop_offset STOP_BUFFER (stopline_wp_idx node_stop_4) 0 < Py.len uneven_window /\
  exists temp : list Waypoint.t,
    decelerate_waypoints temp 0 node_stop_4 = (node_stop_4, Ok temp).
Proof.
  assert (H : stop_offset STOP_BUFFER (stopline_wp_idx node_stop_4) 0 < Py.len uneven_window)
    by (unfold Py.len, stop_offset, STOP_BUFFER; simpl; lia).
  split; [exact H|].
  destruct (decelerate_waypoints_idempotent node_stop_4 uneven_window 0 H)
    as (temp & _ & Hagain).
  exists temp. exact Hagain.
Defined.

(** X6. A stop line farther down the path never lowers a commanded speed:
    for two nodes that differ in their stop line, the one with the larger
    stop-line index (its stop offset still inside the window) gets, at
    every window position, a speed at least that of the other. *)
Theorem decelerate_waypoints_later_stop_line :
  forall (s s' : WaypointUpdater) (waypoints : list Waypoint.t) (closest_idx : Z),
    stopline_wp_idx s <= stopline_wp_idx s' ->
    stop_offset STOP_BUFFER (stopline_wp_idx s') closest_idx < Py.len waypoints ->
    exists temp temp' : list Waypoint.t,
      decelerate_waypoints waypoints closest_idx s = (s, Ok temp) /\
      decelerate_waypoints waypoints closest_idx s' = (s', Ok temp') /\
      forall i : nat,
        (i < List.length waypoints)%nat ->
        (nth i (speeds temp) 0 <= nth i (speeds temp') 0)%R.
Proof.
  intros s s' waypoints closest_idx Hle Hstop'.
  assert (Hoff : stop_offset STOP_BUFFER (stopline_wp_idx s) closest_idx
                 <= stop_offset STOP_BUFFER (stopline_wp_idx s') closest_idx)
    by (unfold stop_offset; lia).
  do 2 eexists. split; [|split].
  - apply (decelerate_waypoints_run _ _ MAX_DECEL_nonneg). lia.
  - apply (decelerate_waypoints_run _ _ MAX_DECEL_nonneg). exact Hstop'.
  - intros i Hi. rewrite !braked_speeds_nth by assumption.
    apply Rmin_monotone; [|lra].
    apply braking_speed_monotone; [exact MAX_DECEL_nonneg|].
    apply arc_length_longer. lia.
Qed.

Lemma decelerate_waypoints_later_stop_line_witness :
  stopline_wp_idx init <= stopline_wp_idx node_stop_4 /\
  stop_offset STOP_BUFFER (stopline_wp_idx node_stop_4) 0 < Py.len uneven_window /\
  exists temp : list Waypoint.t,
    decelerate_waypoints uneven_window 0 init = (init, Ok temp).
Proof.
  assert (H1 : stopline_wp_idx init <= stopline_wp_idx node_stop_4) by (simpl; lia).
  assert (H2 : stop_offset STOP_BUFFER (stopline_wp_idx node_stop_4) 0 < Py.len uneven_window)
    by (unfold Py.len, stop_offset, STOP_BUFFER; simpl; lia).
  split; [exact H1|]. split; [exact H2|].
  destruct (decelerate_waypoints_later_stop_line init node_stop_4 uneven_window 0 H1 H2)
    as (temp & _ & Hrun & _).
  exists temp. exact Hrun.
Defined.

(** X7. With the stop offset inside the window, every speed
    [decelerate_waypoints] returns is at most the point's original speed,
    is not negative when the original is not, and is never a crawl of the
    braking curve: it is 0, or at least 1 m/s, or the original speed
    itself. *)
Theorem decelerate_waypoints_no_creep :
  forall (s : WaypointUpdater) (waypoints : list Waypoint.t) (closest_idx : Z),
    stop_offset STOP_BUFFER (stopline_wp_idx s) closest_idx < Py.len waypoints ->
    exists temp : list Waypoint.t,
      decelerate_waypoints waypoints closest_idx s = (s, Ok temp) /\
      forall i : nat,
        (i < List.length waypoints)%nat ->
        let o := nth i (speeds waypoints) 0%R in
        let v := nth i (speeds temp) 0%R in
        (v <= o)%R /\
        ((0 <= o)%R -> (0 <= v)%R) /\
        (v = 0%R \/ (1 <= v)%R \/ v = o).
Proof.
  intros s waypoints closest_idx Hstop.
  eexists. split; [apply (decelerate_waypoints_run _ _ MAX_DECEL_nonneg); exact Hstop|].
  intros i Hi o v. unfold v. rewrite braked_speeds_nth by assumption. fold o.
  set (b := braking_speed MAX_DECEL _).
  assert (Hb : b = 0%R \/ (1 <= b)%R).
  { unfold b, braking_speed. destruct (Rlt_dec _ 1); [now left|right; lra]. }
  assert (Hb0 : (0 <= b)%R) by apply braking_speed_nonneg.
  unfold Rmin. destruct (Rle_dec b o); repeat split; lra.
Qed.

Lemma decelerate_waypoints_no_creep_witness :
  stop_offset STOP_BUFFER (stopline_wp_idx node_stop_4) 0 < Py.len uneven_window /\
  exists temp : list Waypoint.t,
    decelerate_waypoints uneven_window 0 node_stop_4 = (node_stop_4, Ok temp).
Proof.
  assert (H : stop_offset STOP_BUFFER (stopline_wp_idx node_stop_4) 0 < Py.len uneven_window)
    by (unfold Py.len, stop_offset, STOP_BUFFER; simpl; lia).
  split; [exact H|].
  destruct (decelerate_waypoints_no_creep node_stop_4 uneven_window 0 H) as (temp & Hrun & _).
  exists temp. exact Hrun.
Defined.

(** ** [get_closest_waypoint_idx] *)

(** X8. On a node with a pose, a non-empty coordinate list and the tree
    over it, [get_closest_waypoint_idx] returns normally and its result is a
    valid index of the coordinate list; when the nearest point is the last
    one and the result moved on from it, the result wraps to index 0. *)
Theorem get_closest_waypoint_idx_in_range :
  forall (s : WaypointUpdater) (msg : PoseStamped.t) (pts : list (R * R)),
    pose s = Some msg ->
    waypoints_2d s = Some pts ->
    waypoint_tree s = Some (KDTree.mk pts) ->
    pts <> [] ->
    exists idx : Z,
      get_closest_waypoint_idx s = (s, Ok idx) /\
      0 <= idx < Py.len pts /\
      let closest :=
        snd (KDTree.query (KDTree.mk pts)
               (Point.x (Pose.position (PoseStamped.pose msg)),
                Point.y (Pose.position (PoseStamped.pose msg)))) in
      (closest = Py.len pts - 1 -> idx <> closest -> idx = 0).
Proof.
  intros s msg pts Hpose Hc Ht Hne.
  pose proof (get_closest_waypoint_idx_run s msg pts Hpose Hc Ht Hne) as Hrun.
  cbv zeta in Hrun.
  pose proof (query_index_range pts
                (Point.x (Pose.position (PoseStamped.pose msg)),
                 Point.y (Pose.position (PoseStamped.pose msg))) Hne) as Hrange.
  eexists. split; [exact Hrun|].
  match goal with |- context [Rlt_dec 0 ?d] => destruct (Rlt_dec 0 d) end.
  - split; [apply Z.mod_pos_bound; lia|].
    intros closest Hlast _. unfold closest in Hlast. rewrite Hlast.
    replace (Py.len pts - 1 + 1) with (Py.len pts) by lia.
    apply Z_mod_same_full.
  - split; [exact Hrange|]. intros closest _ Hmoved. now contradiction Hmoved.
Qed.

Lemma get_closest_waypoint_idx_in_range_witness :
  pose scenario_node = Some (car_at 1 0) /\
  waypoints_2d scenario_node = Some scenario_coordinates /\
  waypoint_tree scenario_node = Some (KDTree.mk scenario_coordinates) /\
  scenario_coordinates <> [] /\
  exists idx : Z, get_closest_waypoint_idx scenario_node = (scenario_node, Ok idx).
Proof.
  assert (Hp : pose scenario_node = Some (car_at 1 0)) by reflexivity.
  assert (Hc : waypoints_2d scenario_node = Some scenario_coordinates) by reflexivity.
  assert (Ht : waypoint_tree scenario_node = Some (KDTree.mk scenario_coordinates))
    by reflexivity.
  assert (Hn : scenario_coordinates <> []) by discriminate.
  repeat (split; [assumption|]).
  destruct (get_closest_waypoint_idx_in_range scenario_node (car_at 1 0)
              scenario_coordinates Hp Hc Ht Hn) as (idx & Hrun & _).
  exists idx. exact Hrun.
Defined.

Lemma get_closest_waypoint_idx_no_tree s :
  pose s <> None -> waypoint_tree s = None ->
  get_closest_waypoint_idx s = (s, Raise AttributeError).
Proof.
  intros Hp Ht. destruct (pose s) as [msg|] eqn:Hpose; [|congruence].
  unfold get_closest_waypoint_idx.
  rewrite (bind_ok _ _ _ _ _ (attr_of_some pose AttributeError s msg Hpose)).
  rewrite (bind_ok _ _ _ _ _ (attr_of_some pose AttributeError s msg Hpose)).
  apply bind_raise. now apply attr_of_none.
Qed.

(** X9. Localisation before the node is ready: without a stored pose, and
    with a pose but no tree, [get_closest_waypoint_idx] raises
    [AttributeError], and the node, its outbox included, is as before. *)
Theorem get_closest_waypoint_idx_not_ready :
  forall s : WaypointUpdater,
    (pose s = None -> get_closest_waypoint_idx s = (s, Raise AttributeError)) /\
    (pose s <> None -> waypoint_tree s = None ->
     get_closest_waypoint_idx s = (s, Raise AttributeError)).
Proof.
  intros s. split.
  - intros Hp. unfold get_closest_waypoint_idx.
    apply bind_raise. now apply attr_of_none.
  - apply get_closest_waypoint_idx_no_tree.
Qed.

(** The scan keeps a least squared distance and a position where it was
    seen.  [seen] are the points already scanned. *)
Lemma nearest_least q rest : forall (seen : list (R * R)) (bd : R) (bi : Z),
  0 <= bi < Py.len seen ->
  KDTree.sqdist q (nth (Z.to_nat bi) seen (0, 0)%R) = bd ->
  (forall k, (k < List.length seen)%nat -> (bd <= KDTree.sqdist q (nth k seen (0, 0)%R))%R) ->
  let r := KDTree.nearest q rest (Py.len seen) bd bi in
  let all := seen ++ rest in
  0 <= snd r < Py.len all /\
  KDTree.sqdist q (nth (Z.to_nat (snd r)) all (0, 0)%R) = fst r /\
  (forall k, (k < List.length all)%nat -> (fst r <= KDTree.sqdist q (nth k all (0, 0)%R))%R).
Proof.
  induction rest as [|p rest IH]; intros seen bd bi Hbi Hbd Hmin.
  - cbn [KDTree.nearest fst snd]. rewrite app_nil_r. auto.
  - cbn [KDTree.nearest].
    assert (Hlen : Py.len (seen ++ [p]) = Py.len seen + 1)
      by (unfold Py.len; rewrite length_app; simpl List.length; lia).
    replace (seen ++ p :: rest) with ((seen ++ [p]) ++ rest)
      by (now rewrite <- app_assoc).
    rewrite <- Hlen.
    assert (Hold : forall k, (k < List.length seen)%nat ->
                     nth k (seen ++ [p]) (0, 0)%R = nth k seen (0, 0)%R)
      by (intros k Hk; now apply app_nth1).
    assert (Hnew : nth (List.length seen) (seen ++ [p]) (0, 0)%R = p)
      by (rewrite app_nth2 by lia; now rewrite Nat.sub_diag).
    destruct (Rlt_dec (KDTree.sqdist q p) bd) as [Hlt|Hge].
    + apply IH.
      * unfold Py.len in *. lia.
      * unfold Py.len. now rewrite Nat2Z.id, Hnew.
      * intros k Hk. rewrite length_app in Hk. simpl in Hk.
        destruct (Nat.eq_dec k (List.length seen)) as [->|Hne].
        -- rewrite Hnew. lra.
        -- rewrite Hold by lia. specialize (Hmin k ltac:(lia)). lra.
    + apply IH.
      * unfold Py.len in *. lia.
      * rewrite Hold by (unfold Py.len in Hbi; lia). exact Hbd.
      * intros k Hk. rewrite length_app in Hk. simpl in Hk.
        destruct (Nat.eq_dec k (List.length seen)) as [->|Hne].
        -- rewrite Hnew. lra.
        -- rewrite Hold by lia. apply Hmin. lia.
Qed.

(** The index the query returns is that of a nearest point. *)
Lemma query_least pts q :
  pts <> [] ->
  let i := snd (KDTree.query (KDTree.mk pts) q) in
  forall k, (k < List.length pts)%nat ->
    (KDTree.sqdist q (nth (Z.to_nat i) pts (0, 0)%R)
     <= KDTree.sqdist q (nth k pts (0, 0)%R))%R.
Proof.
  intros Hne. destruct pts as [|p rest]; [congruence|].
  unfold KDTree.query. cbn [KDTree.data].
  pose proof (nearest_least q rest [p] (KDTree.sqdist q p) 0) as H.
  change (Py.len [p]) with 1 in H.
  specialize (H ltac:(lia) eq_refl).
  assert (H1 : forall k, (k < List.length [p])%nat ->
                 (KDTree.sqdist q p <= KDTree.sqdist q (nth k [p] (0, 0)%R))%R).
  { intros k Hk. simpl in Hk. replace k with O by lia. simpl. lra. }
  specialize (H H1). cbv zeta in H. cbn [app] in H.
  destruct (KDTree.nearest q rest 1 (KDTree.sqdist q p) 0) as [bd bi].
  cbn [fst snd] in *. destruct H as (_ & Hbd & Hmin).
  rewrite Hbd. exact Hmin.
Qed.

Lemma sqdist_nonneg q p : (0 <= KDTree.sqdist q p)%R.
Proof.
  unfold KDTree.sqdist.
  pose proof (Rle_0_sqr (fst q - fst p)) as Sx. pose proof (Rle_0_sqr (snd q - snd p)) as Sy.
  unfold Rsqr in Sx, Sy. lra.
Qed.

Lemma sqdist_zero q p : KDTree.sqdist q p = 0%R -> p = q.
Proof.
  destruct q as [qx qy], p as [px py]. unfold KDTree.sqdist. cbn [fst snd].
  intros H.
  pose proof (Rle_0_sqr (qx - px)) as Sx. pose proof (Rle_0_sqr (qy - py)) as Sy.
  unfold Rsqr in Sx, Sy.
  assert (Hx : ((qx - px) * (qx - px) = 0)%R) by lra.
  assert (Hy : ((qy - py) * (qy - py) = 0)%R) by lra.
  apply Rmult_integral in Hx. apply Rmult_integral in Hy.
  f_equal; [destruct Hx; lra|destruct Hy; lra].
Qed.

(** X10. A car standing exactly on a path point is localised on a point
    at its position and is not moved on: when the pose's (x, y) is in the
    coordinate list, [get_closest_waypoint_idx] returns the index the tree
    gives, unadvanced, and the point at that index is the pose's
    position. *)
Theorem get_closest_waypoint_idx_on_waypoint :
  forall (s : WaypointUpdater) (msg : PoseStamped.t) (pts : list (R * R)),
    pose s = Some msg ->
    waypoints_2d s = Some pts ->
    waypoint_tree s = Some (KDTree.mk pts) ->
    let q := (Point.x (Pose.position (PoseStamped.pose msg)),
              Point.y (Pose.position (PoseStamped.pose msg))) in
    In q pts ->
    exists idx : Z,
      get_closest_waypoint_idx s = (s, Ok idx) /\
      idx = snd (KDTree.query (KDTree.mk pts) q) /\
      0 <= idx < Py.len pts /\
      nth (Z.to_nat idx) pts (0, 0)%R = q.
Proof.
  intros s msg pts Hpose Hc Ht q Hin.
  assert (Hne : pts <> []) by (intros ->; contradiction).
  pose proof (get_closest_waypoint_idx_run s msg pts Hpose Hc Ht Hne) as Hrun.
  cbv zeta in Hrun. fold q in Hrun.
  pose proof (query_index_range pts q Hne) as Hrange.
  pose proof (query_least pts q Hne) as Hmin. cbv zeta in Hmin.
  set (closest := snd (KDTree.query (KDTree.mk pts) q)) in *.
  assert (Hzero : KDTree.sqdist q (nth (Z.to_nat closest) pts (0, 0)%R) = 0%R).
  { destruct (In_nth pts q (0, 0)%R Hin) as (j & Hj & Hq).
    specialize (Hmin j Hj). rewrite Hq in Hmin.
    assert (KDTree.sqdist q q = 0%R) as E by (unfold KDTree.sqdist; ring).
    rewrite E in Hmin.
    pose proof (sqdist_nonneg q (nth (Z.to_nat closest) pts (0, 0)%R)).
    lra. }
  apply sqdist_zero in Hzero.
  exists closest. split; [|split; [reflexivity|split; [exact Hrange|exact Hzero]]].
  rewrite Hrun. rewrite Hzero.
  match goal with |- context [Rlt_dec 0 ?d] => destruct (Rlt_dec 0 d) as [Hpos|_] end;
    [|reflexivity].
  exfalso. revert Hpos. unfold np_dot, np_sub. cbn [fst snd]. intros Hpos. nra.
Qed.

Lemma get_closest_waypoint_idx_on_waypoint_witness :
  pose scenario_node = Some (car_at 1 0) /\
  waypoints_2d scenario_node = Some scenario_coordinates /\
  waypoint_tree scenario_node = Some (KDTree.mk scenario_coordinates) /\
  In (1, 0)%R scenario_coordinates /\
  exists idx : Z,
    get_closest_waypoint_idx scenario_node = (scenario_node, Ok idx) /\
    nth (Z.to_nat idx) scenario_coordinates (0, 0)%R = (1, 0)%R.
Proof.
  assert (Hp : pose scenario_node = Some (car_at 1 0)) by reflexivity.
  assert (Hc : waypoints_2d scenario_node = Some scenario_coordinates) by reflexivity.
  assert (Ht : waypoint_tree scenario_node = Some (KDTree.mk scenario_coordinates))
    by reflexivity.
  assert (Hi : In (1, 0)%R scenario_coordinates) by (right; left; reflexivity).
  repeat (split; [assumption|]).
  destruct (get_closest_waypoint_idx_on_waypoint scenario_node (car_at 1 0)
              scenario_coordinates Hp Hc Ht Hi) as (idx & Hrun & _ & _ & Hat).
  exists idx. split; assumption.
Defined.

(** ** The loop *)

(** X11. While the pose or the path is missing, ticks are skipped: any
    number of loop iterations returns normally, publishes nothing and leaves
    the node exactly as it was. *)
Theorem loop_waits_for_inputs :
  forall (s : WaypointUpdater) (ticks : nat),
    pose s = None \/ base_waypoints s = None ->
    loop ticks s = (s, Ok tt).
Proof.
  intros s ticks Hmissing.
  assert (Hbody : loop_body s = (s, Ok tt)).
  { unfold loop_body, Tunable.loop_body.
    rewrite (bind_ok _ _ _ _ _ (attr_run pose s)).
    rewrite (bind_ok _ _ _ _ _ (attr_run base_waypoints s)).
    destruct Hmissing as [-> | ->]; [reflexivity|]. now destruct (pose s). }
  induction ticks as [|n IH]; [reflexivity|].
  unfold loop in *. cbn [Tunable.loop].
  fold loop_body. now rewrite (bind_ok _ _ _ _ _ Hbody).
Qed.

Lemma loop_waits_for_inputs_witness :
  (pose init = None \/ base_waypoints init = None) /\ loop 3 init = (init, Ok tt).
Proof.
  assert (H : pose init = None \/ base_waypoints init = None) by (left; reflexivity).
  split; [exact H|]. exact (loop_waits_for_inputs init 3 H).
Defined.

(** X12. On a node with a pose, a path, a non-empty coordinate list and the
    tree over it, [n] iterations of the loop return normally and append to
    the outbox [n] copies of one and the same message: the path's header
    with the slice of the path that starts at the localised index.  Nothing
    else in the node changes. *)
Theorem loop_publishes_each_tick :
  forall (s : WaypointUpdater) (msg : PoseStamped.t) (lane : Lane.t)
         (pts : list (R * R)),
    pose s = Some msg ->
    base_waypoints s = Some lane ->
    waypoints_2d s = Some pts ->
    waypoint_tree s = Some (KDTree.mk pts) ->
    pts <> [] ->
    exists closest : Z,
      get_closest_waypoint_idx s = (s, Ok closest) /\
      forall ticks : nat,
        loop ticks s
        = (mkWaypointUpdater
             (final_waypoints_pub s
              ++ repeat (Lane.mk (Lane.header lane)
                           (Py.slice (Lane.waypoints lane) closest
                              (closest + LOOKAHEAD_WPS))) ticks)
             (stopline_wp_idx s) (pose s) (base_waypoints s) (waypoints_2d s)
             (waypoint_tree s),
           Ok tt).
Proof.
  intros s msg lane pts Hpose Hpath Hc Ht Hne.
  destruct (loop_body_run LOOKAHEAD_WPS s msg lane pts Hpose Hpath Hc Ht Hne)
    as (closest & Hloc & _).
  exists closest. split; [exact Hloc|].
  intros ticks. revert s Hpose Hpath Hc Ht Hloc.
  induction ticks as [|n IH]; intros s Hpose Hpath Hc Ht Hloc.
  - cbn. rewrite app_nil_r. now destruct s.
  - destruct (loop_body_run LOOKAHEAD_WPS s msg lane pts Hpose Hpath Hc Ht Hne)
      as (c & Hloc' & Hrun).
    assert (c = closest) by congruence. subst c.
    unfold loop. cbn [Tunable.loop].
    rewrite (bind_ok _ _ _ _ _ Hrun). fold loop.
    set (L := Lane.mk (Lane.header lane)
                (Py.slice (Lane.waypoints lane) closest (closest + LOOKAHEAD_WPS))) in *.
    set (s1 := mkWaypointUpdater (final_waypoints_pub s ++ [L]) (stopline_wp_idx s)
                 (pose s) (base_waypoints s) (waypoints_2d s) (waypoint_tree s)).
    assert (Hloc1 : get_closest_waypoint_idx s1 = (s1, Ok closest)).
    { pose proof (get_closest_waypoint_idx_run s1 msg pts Hpose Hc Ht Hne) as E1.
      pose proof (get_closest_waypoint_idx_run s msg pts Hpose Hc Ht Hne) as E.
      cbv zeta in E, E1. rewrite E in Hloc. rewrite E1. congruence. }
    rewrite (IH s1 Hpose Hpath Hc Ht Hloc1). cbn [final_waypoints_pub s1 repeat].
    unfold s1. cbn. now rewrite <- app_assoc.
Qed.

Lemma loop_publishes_each_tick_witness :
  pose scenario_node = Some (car_at 1 0) /\
  base_waypoints scenario_node = Some scenario_path /\
  waypoints_2d scenario_node = Some scenario_coordinates /\
  waypoint_tree scenario_node = Some (KDTree.mk scenario_coordinates) /\
  scenario_coordinates <> [] /\
  exists closest : Z,
    get_closest_waypoint_idx scenario_node = (scenario_node, Ok closest).
Proof.
  assert (Hp : pose scenario_node = Some (car_at 1 0)) by reflexivity.
  assert (Hb : base_waypoints scenario_node = Some scenario_path) by reflexivity.
  assert (Hc : waypoints_2d scenario_node = Some scenario_coordinates) by reflexivity.
  assert (Ht : waypoint_tree scenario_node = Some (KDTree.mk scenario_coordinates))
    by reflexivity.
  assert (Hn : scenario_coordinates <> []) by discriminate.
  repeat (split; [assumption|]).
  destruct (loop_publishes_each_tick scenario_node (car_at 1 0) scenario_path
              scenario_coordinates Hp Hb Hc Ht Hn) as (closest & Hloc & _).
  exists closest. exact Hloc.
Defined.

(** X13. A node that holds a pose and a path object but no tree (the state
    an empty path leaves behind) does not survive its next tick: the loop
    raises [AttributeError] in its first iteration, whatever the number of
    iterations asked for, and publishes nothing. *)
Theorem loop_fails_without_tree :
  forall (s : WaypointUpdater) (ticks : nat),
    pose s <> None -> base_waypoints s <> None -> waypoint_tree s = None ->
    loop (S ticks) s = (s, Raise AttributeError).
Proof.
  intros s ticks Hpose Hpath Htree.
  unfold loop. cbn [Tunable.loop]. apply bind_raise.
  unfold Tunable.loop_body.
  rewrite (bind_ok _ _ _ _ _ (attr_run pose s)).
  rewrite (bind_ok _ _ _ _ _ (attr_run base_waypoints s)).
  destruct (pose s) as [msg|] eqn:Ep; [|congruence].
  destruct (base_waypoints s) as [lane|] eqn:Eb; [|congruence].
  apply bind_raise.
  apply get_closest_waypoint_idx_no_tree; [congruence|exact Htree].
Qed.

Lemma loop_fails_without_tree_witness :
  let s := exec (pose_cb (car_at 0 0)) (exec (waypoints_cb Lane.default) init) in
  pose s <> None /\ base_waypoints s <> None /\ waypoint_tree s = None /\
  loop 1 s = (s, Raise AttributeError).
Proof.
  cbv zeta.
  set (s := exec (pose_cb (car_at 0 0)) (exec (waypoints_cb Lane.default) init)).
  assert (Hp : pose s <> None) by discriminate.
  assert (Hb : base_waypoints s <> None) by discriminate.
  assert (Ht : waypoint_tree s = None) by reflexivity.
  split; [exact Hp|]. split; [exact Hb|]. split; [exact Ht|].
  exact (loop_fails_without_tree s 0 Hp Hb Ht).
Defined.

(** ** Deliveries *)

(** The three ways a delivery on [/base_waypoints] can go. *)
Lemma waypoints_cb_cases s lane :
  let after w t :=
    mkWaypointUpdater (final_waypoints_pub s) (stopline_wp_idx s) (pose s) (Some lane) w t in
  (Py.falsy_list (waypoints_2d s) = false /\
   waypoints_cb lane s = (after (waypoints_2d s) (waypoint_tree s), Ok tt)) \/
  (Py.falsy_list (waypoints_2d s) = true /\ Lane.waypoints lane = [] /\
   waypoints_cb lane s = (after (Some []) (waypoint_tree s), Raise ValueError)) \/
  (Py.falsy_list (waypoints_2d s) = true /\ coordinates lane <> [] /\
   waypoints_cb lane s
   = (after (Some (coordinates lane)) (Some (KDTree.mk (coordinates lane))), Ok tt)).
Proof.
  cbv zeta. destruct (Py.falsy_list (waypoints_2d s)) eqn:Hf.
  - right. destruct (Lane.waypoints lane) as [|wp rest] eqn:Hw.
    + left. split; [reflexivity|]. split; [reflexivity|]. now apply waypoints_cb_empty.
    + right. split; [reflexivity|]. split.
      * unfold coordinates. rewrite Hw. discriminate.
      * apply waypoints_cb_first; [rewrite Hw; discriminate|exact Hf].
  - left. split; [reflexivity|]. now apply waypoints_cb_again.
Qed.

Lemma falsy_nonempty {A : Type} (l : list A) : l <> [] -> Py.falsy_list (Some l) = false.
Proof. destruct l; [congruence|reflexivity]. Qed.

(** X14. Delivering the same path twice in a row leaves the node as one
    delivery leaves it, in every state of the node and for every path, the
    empty one included. *)
Theorem waypoints_cb_same_path_twice :
  forall (s : WaypointUpdater) (lane : Lane.t),
    exec (waypoints_cb lane) (exec (waypoints_cb lane) s) = exec (waypoints_cb lane) s.
Proof.
  intros s lane. unfold exec.
  destruct (waypoints_cb_cases s lane) as [(Hf & E)|[(Hf & Hw & E)|(Hf & Hw & E)]];
    cbv zeta in E; rewrite E; cbn [fst].
  - rewrite waypoints_cb_again by exact Hf. reflexivity.
  - rewrite waypoints_cb_empty by (try exact Hw; reflexivity). reflexivity.
  - rewrite waypoints_cb_again by (now apply falsy_nonempty). reflexivity.
Qed.

Lemma handle_same_attributes_tick s : same_attributes s (exec (handle Tick) s).
Proof. apply loop_body_read_only. Qed.

Lemma handle_index_consistent e s :
  index_consistent s -> index_consistent (exec (handle e) s).
Proof.
  intros Hs. destruct e as [msg|lane|data|data|]; cbn [handle].
  - exact Hs.
  - unfold exec.
    destruct (waypoints_cb_cases s lane) as [(Hf & E)|[(Hf & Hw & E)|(Hf & Hw & E)]];
      cbv zeta in E; rewrite E; cbn [fst]; unfold index_consistent; cbn.
    + destruct Hs as [(Hf' & _)|(pts & Hne & Hc & Ht & _)]; [congruence|].
      right. exists pts. repeat split; try assumption. now exists lane.
    + left. split; [reflexivity|].
      destruct Hs as [(_ & Ht)|(pts & Hne & Hc & _)]; [exact Ht|].
      rewrite Hc in Hf. now rewrite falsy_nonempty in Hf.
    + right. exists (coordinates lane). repeat split; try assumption. now exists lane.
  - exact Hs.
  - exact Hs.
  - destruct (handle_same_attributes_tick s) as (_ & Hb & Hc & Ht & _).
    cbn [handle] in *. unfold index_consistent in *. now rewrite Hb, Hc, Ht.
Qed.

Lemma run_cons e rest s :
  run (e :: rest) s = run rest (exec (handle e) s) \/
  run (e :: rest) s = exec (handle e) s.
Proof.
  cbn [run]. unfold exec.
  destruct e; destruct (handle _ s) as [s' [[]|err]]; cbn [fst]; auto.
Qed.

Lemma run_invariant (P : WaypointUpdater -> Prop) :
  (forall e s, P s -> P (exec (handle e) s)) ->
  forall events s, P s -> P (run events s).
Proof.
  intros Hstep events. induction events as [|e rest IH]; intros s Hs; [exact Hs|].
  destruct (run_cons e rest s) as [-> | ->]; auto.
Qed.

Lemma tick_outcome_when_consistent s :
  index_consistent s ->
  outcome loop_body s = Ok tt \/ outcome loop_body s = Raise AttributeError.
Proof.
  intros Hs. unfold outcome.
  destruct (pose s) as [msg|] eqn:Hp.
  - destruct (base_waypoints s) as [lane|] eqn:Hb.
    + destruct Hs as [(_ & Ht)|(pts & Hne & Hc & Ht & _)].
      * right. unfold loop_body, Tunable.loop_body.
        rewrite (bind_ok _ _ _ _ _ (attr_run pose s)).
        rewrite (bind_ok _ _ _ _ _ (attr_run base_waypoints s)).
        rewrite Hp, Hb.
        rewrite (bind_raise _ _ s s AttributeError); [reflexivity|].
        apply get_closest_waypoint_idx_no_tree; [congruence|exact Ht].
      * left.
        destruct (loop_body_run LOOKAHEAD_WPS s msg lane pts Hp Hb Hc Ht Hne)
          as (c & _ & Hrun).
        unfold loop_body. now rewrite Hrun.
    + left. unfold loop_body, Tunable.loop_body.
      rewrite (bind_ok _ _ _ _ _ (attr_run pose s)).
      rewrite (bind_ok _ _ _ _ _ (attr_run base_waypoints s)).
      now rewrite Hp, Hb.
  - left. unfold loop_body, Tunable.loop_body.
    rewrite (bind_ok _ _ _ _ _ (attr_run pose s)).
    rewrite (bind_ok _ _ _ _ _ (attr_run base_waypoints s)).
    now rewrite Hp.
Qed.

(** X15. Whatever messages and ticks the node has gone through since
    [__init__], on any topic and in any order: either it holds no points
    and no tree, or its tree indexes exactly its non-empty coordinate list
    and a path is stored.  Hence a tick in such a state is skipped or
    publishes, or else raises [AttributeError] (pose and path object stored,
    no tree); it never fails on a subscript or a modulus. *)
Theorem reachable_index_consistent :
  forall events : list event,
    index_consistent (run events init) /\
    (outcome loop_body (run events init) = Ok tt \/
     outcome loop_body (run events init) = Raise AttributeError).
Proof.
  intros events.
  assert (H : index_consistent (run events init)).
  { apply run_invariant; [exact handle_index_consistent|].
    left. split; reflexivity. }
  split; [exact H|]. now apply tick_outcome_when_consistent.
Qed.

Lemma handle_subscribed_stopline e s :
  subscribed e = true -> stopline_wp_idx (exec (handle e) s) = stopline_wp_idx s.
Proof.
  intros Hsub. destruct e as [msg|lane|data|data|]; try discriminate; cbn [handle].
  - reflexivity.
  - unfold exec.
    destruct (waypoints_cb_cases s lane) as [(Hf & E)|[(Hf & Hw & E)|(Hf & Hw & E)]];
      cbv zeta in E; now rewrite E.
  - now destruct (handle_same_attributes_tick s) as (_ & _ & _ & _ & Hst).
Qed.

(** X16. With the subscriptions [__init__] makes (pose and path; the
    stop-line topic is not subscribed), the stop-line index never leaves
    its initial -1, whatever is delivered and however many ticks run. *)
Theorem stop_line_stays_none :
  forall events : list event,
    forallb subscribed events = true ->
    stopline_wp_idx (run events init) = -1.
Proof.
  intros events. change (-1) with (stopline_wp_idx init). generalize init.
  induction events as [|e rest IH]; intros s Hall; [reflexivity|].
  cbn [forallb] in Hall. apply andb_prop in Hall. destruct Hall as [He Hrest].
  pose proof (handle_subscribed_stopline e s He) as Hstep.
  destruct (run_cons e rest s) as [-> | ->]; [|exact Hstep].
  now rewrite IH.
Qed.

Lemma stop_line_stays_none_witness :
  forallb subscribed [BaseWaypoints scenario_path; CurrentPose (car_at 1 0); Tick] = true /\
  stopline_wp_idx (run [BaseWaypoints scenario_path; CurrentPose (car_at 1 0); Tick] init)
  = -1.
Proof.
  assert (H : forallb subscribed
                [BaseWaypoints scenario_path; CurrentPose (car_at 1 0); Tick] = true)
    by reflexivity.
  split; [exact H|]. exact (stop_line_stays_none _ H).
Defined.

Lemma handle_keeps_index e s pts :
  pts <> [] -> waypoints_2d s = Some pts ->
  waypoints_2d (exec (handle e) s) = Some pts /\
  waypoint_tree (exec (handle e) s) = waypoint_tree s.
Proof.
  intros Hne Hc. destruct e as [msg|lane|data|data|]; cbn [handle].
  - now split.
  - unfold exec. rewrite waypoints_cb_again by (rewrite Hc; now apply falsy_nonempty).
    now split.
  - now split.
  - now split.
  - destruct (handle_same_attributes_tick s) as (_ & _ & Hc' & Ht' & _).
    cbn [handle] in *. rewrite Hc', Ht'. now split.
Qed.

(** X17. Once the node holds a non-empty coordinate list, no delivery and
    no tick ever replaces the list or the tree: after any events they are
    what they were, also when a different path has been delivered since. *)
Theorem index_built_once :
  forall (events : list event) (s : WaypointUpdater) (pts : list (R * R)),
    pts <> [] ->
    waypoints_2d s = Some pts ->
    waypoints_2d (run events s) = Some pts /\
    waypoint_tree (run events s) = waypoint_tree s.
Proof.
  intros events s pts Hne Hc.
  apply (run_invariant (fun s' => waypoints_2d s' = Some pts /\
                                  waypoint_tree s' = waypoint_tree s)).
  - intros e s' [Hc' Ht']. destruct (handle_keeps_index e s' pts Hne Hc') as [Hc'' Ht''].
    split; [exact Hc''|congruence].
  - now split.
Qed.

Lemma index_built_once_witness :
  scenario_coordinates <> [] /\
  waypoints_2d scenario_node = Some scenario_coordinates /\
  waypoints_2d (run [BaseWaypoints second_path; Tick] scenario_node)
  = Some scenario_coordinates.
Proof.
  assert (Hn : scenario_coordinates <> []) by discriminate.
  assert (Hc : waypoints_2d scenario_node = Some scenario_coordinates) by reflexivity.
  split; [exact Hn|]. split; [exact Hc|].
  exact (proj1 (index_built_once [BaseWaypoints second_path; Tick] scenario_node
                  scenario_coordinates Hn Hc)).
Defined.

(** X18. Deliveries on different topics write different attributes, so
    their order does not matter: a pose and a path, a stop line and a path,
    a pose and a stop line leave the same node in either order.  On one
    topic the latest pose, and the latest stop line, is the one kept. *)
Theorem deliveries_commute :
  forall (s : WaypointUpdater) (msg msg' : PoseStamped.t) (lane : Lane.t) (data data' : Z),
    exec (pose_cb msg) (exec (waypoints_cb lane) s)
    = exec (waypoints_cb lane) (exec (pose_cb msg) s) /\
    exec (traffic_cb data) (exec (waypoints_cb lane) s)
    = exec (waypoints_cb lane) (exec (traffic_cb data) s) /\
    exec (pose_cb msg) (exec (traffic_cb data) s)
    = exec (traffic_cb data) (exec (pose_cb msg) s) /\
    exec (pose_cb msg') (exec (pose_cb msg) s) = exec (pose_cb msg') s /\
    exec (traffic_cb data') (exec (traffic_cb data) s) = exec (traffic_cb data') s.
Proof.
  intros s msg msg' lane data data'.
  assert (Hcb : forall s0,
             exec (waypoints_cb lane) s0
             = mkWaypointUpdater (final_waypoints_pub s0) (stopline_wp_idx s0) (pose s0)
                 (Some lane)
                 (if Py.falsy_list (waypoints_2d s0)
                  then Some (coordinates lane) else waypoints_2d s0)
                 (if Py.falsy_list (waypoints_2d s0)
                  then match coordinates lane with
                       | [] => waypoint_tree s0
                       | _ :: _ => Some (KDTree.mk (coordinates lane))
                       end
                  else waypoint_tree s0)).
  { intros s0. unfold exec.
    destruct (waypoints_cb_cases s0 lane) as [(Hf & E)|[(Hf & Hw & E)|(Hf & Hw & E)]];
      cbv zeta in E; rewrite E, Hf; cbn [fst].
    - reflexivity.
    - unfold coordinates. rewrite Hw. reflexivity.
    - destruct (coordinates lane); [congruence|reflexivity]. }
  repeat split; try reflexivity.
  - rewrite (Hcb s), (Hcb (exec (pose_cb msg) s)). reflexivity.
  - rewrite (Hcb s), (Hcb (exec (traffic_cb data) s)). reflexivity.
Qed.

(** ** [publish_waypoints] *)

Lemma skipn_uncons {A : Type} (l : list A) (i : nat) (d : A) :
  (i < List.length l)%nat -> skipn i l = nth i l d :: skipn (S i) l.
Proof.
  revert i. induction l as [|x l IH]; intros i Hi; simpl in Hi; [lia|].
  destruct i as [|i]; [reflexivity|]. cbn [skipn nth]. apply IH. lia.
Qed.

Lemma window_slides {A : Type} (l : list A) (i n : nat) (d : A) :
  (i < List.length l)%nat ->
  firstn n (firstn (S n) (skipn (S i) l)) = tl (firstn (S n) (skipn i l)) /\
  (List.length (firstn (S n) (skipn (S i) l))
   <= List.length (tl (firstn (S n) (skipn i l))) + 1)%nat.
Proof.
  intros Hi. rewrite (skipn_uncons l i d Hi). rewrite firstn_cons. cbn [tl]. split.
  - rewrite firstn_firstn. f_equal. lia.
  - rewrite !length_firstn. lia.
Qed.

(** X19. The published window slides along the path: for an index whose
    successor is still a valid index, the window published at the successor
    begins with the window published at the index minus its first point,
    and has at most one point more than that. *)
Theorem publish_waypoints_slides :
  forall (s : WaypointUpdater) (lane : Lane.t) (closest_idx : Z),
    base_waypoints s = Some lane ->
    0 <= closest_idx ->
    closest_idx + 1 < Py.len (Lane.waypoints lane) ->
    exists window window' : list Waypoint.t,
      publish_waypoints closest_idx s = publish (Lane.mk (Lane.header lane) window) s /\
      publish_waypoints (closest_idx + 1) s
      = publish (Lane.mk (Lane.header lane) window') s /\
      firstn 199 window' = tl window /\
      (List.length window' <= List.length (tl window) + 1)%nat.
Proof.
  intros s lane closest_idx Hb Hlo Hhi.
  exists (firstn 200 (skipn (Z.to_nat closest_idx) (Lane.waypoints lane))),
         (firstn 200 (skipn (S (Z.to_nat closest_idx)) (Lane.waypoints lane))).
  assert (Hlt : (Z.to_nat closest_idx < List.length (Lane.waypoints lane))%nat)
    by (unfold Py.len in Hhi; lia).
  split; [|split; [|split]].
  - unfold publish_waypoints. rewrite (publish_waypoints_run _ _ _ _ Hb).
    rewrite slice_window; [reflexivity|lia|unfold LOOKAHEAD_WPS; lia].
  - unfold publish_waypoints. rewrite (publish_waypoints_run _ _ _ _ Hb).
    rewrite slice_window; [|lia|unfold LOOKAHEAD_WPS; lia].
    replace (Z.to_nat (closest_idx + 1)) with (S (Z.to_nat closest_idx)) by lia.
    reflexivity.
  - exact (proj1 (window_slides (Lane.waypoints lane) (Z.to_nat closest_idx) 199
                    Waypoint.default Hlt)).
  - exact (proj2 (window_slides (Lane.waypoints lane) (Z.to_nat closest_idx) 199
                    Waypoint.default Hlt)).
Qed.

Lemma publish_waypoints_slides_witness :
  base_waypoints scenario_node = Some scenario_path /\
  0 <= 1 /\ 1 + 1 < Py.len (Lane.waypoints scenario_path) /\
  exists window' : list Waypoint.t,
    publish_waypoints (1 + 1) scenario_node
    = publish (Lane.mk (Lane.header scenario_path) window') scenario_node.
Proof.
  assert (Hb : base_waypoints scenario_node = Some scenario_path) by reflexivity.
  assert (H0 : 0 <= 1) by lia.
  assert (H1 : 1 + 1 < Py.len (Lane.waypoints scenario_path))
    by (unfold Py.len; simpl; lia).
  split; [exact Hb|]. split; [exact H0|]. split; [exact H1|].
  destruct (publish_waypoints_slides scenario_node scenario_path 1 Hb H0 H1)
    as (w & w' & _ & Hrun & _).
  exists w'. exact Hrun.
Defined.

(** X20. [publish_waypoints] outside its intended inputs: without a stored
    path it raises [AttributeError] and publishes nothing; with an index at
    or past the end of the stored path it raises nothing and publishes the
    path's header with an empty list of waypoints. *)
Theorem publish_waypoints_edges :
  forall (s : WaypointUpdater) (closest_idx : Z),
    (base_waypoints s = None ->
     publish_waypoints closest_idx s = (s, Raise AttributeError)) /\
    (forall lane : Lane.t,
        base_waypoints s = Some lane ->
        Py.len (Lane.waypoints lane) <= closest_idx ->
        publish_waypoints closest_idx s = publish (Lane.mk (Lane.header lane) []) s).
Proof.
  intros s closest_idx. split.
  - intros Hb. unfold publish_waypoints, Tunable.publish_waypoints.
    apply bind_raise. now apply attr_of_none.
  - intros lane Hb Hout. unfold publish_waypoints.
    rewrite (publish_waypoints_run _ _ _ _ Hb). do 2 f_equal.
    pose proof (len_nonneg (Lane.waypoints lane)) as Hlen.
    unfold Py.slice, Py.clip, LOOKAHEAD_WPS.
    destruct (closest_idx <? 0) eqn:E1; [apply Z.ltb_lt in E1; lia|].
    destruct (closest_idx + 200 <? 0) eqn:E2; [apply Z.ltb_lt in E2; lia|].
    rewrite !Z.min_r by lia. rewrite Z.sub_diag. reflexivity.
Qed.

(** ** From the first deliveries to the first message *)

Lemma get_closest_waypoint_idx_valid s msg pts :
  pose s = Some msg -> waypoints_2d s = Some pts ->
  waypoint_tree s = Some (KDTree.mk pts) -> pts <> [] ->
  exists idx : Z, get_closest_waypoint_idx s = (s, Ok idx) /\ 0 <= idx < Py.len pts.
Proof.
  intros Hpose Hc Ht Hne.
  pose proof (get_closest_waypoint_idx_run s msg pts Hpose Hc Ht Hne) as Hrun.
  cbv zeta in Hrun.
  pose proof (query_index_range pts
                (Point.x (Pose.position (PoseStamped.pose msg)),
                 Point.y (Pose.position (PoseStamped.pose msg))) Hne) as Hrange.
  eexists. split; [exact Hrun|].
  match goal with |- context [Rlt_dec 0 ?d] => destruct (Rlt_dec 0 d) end.
  - apply Z.mod_pos_bound. lia.
  - exact Hrange.
Qed.

Lemma run_delivery e rest s :
  e <> Tick -> run (e :: rest) s = run rest (exec (handle e) s).
Proof.
  intros He. cbn [run]. unfold exec.
  destruct e; try congruence; now destruct (handle _ s) as [s' [[]|err]].
Qed.

Lemma coordinates_len lane : Py.len (coordinates lane) = Py.len (Lane.waypoints lane).
Proof. unfold coordinates, Py.len. now rewrite length_map. Qed.

(** X21. A fresh node that has received a path with at least one point and
    a pose, in either order, publishes on its next tick: the message carries
    the path's header and the points of the path from a valid index on, at
    least one and at most 200 of them, and the tick returns normally. *)
Theorem first_tick_publishes :
  forall (lane : Lane.t) (msg : PoseStamped.t),
    Lane.waypoints lane <> [] ->
    let s := run [BaseWaypoints lane; CurrentPose msg] init in
    run [CurrentPose msg; BaseWaypoints lane] init = s /\
    exists idx : Z,
      0 <= idx < Py.len (Lane.waypoints lane) /\
      let window := firstn 200 (skipn (Z.to_nat idx) (Lane.waypoints lane)) in
      loop_body s = publish (Lane.mk (Lane.header lane) window) s /\
      (1 <= List.length window <= 200)%nat.
Proof.
  intros lane msg Hne s.
  assert (Hs : s = mkWaypointUpdater [] (-1) (Some msg) (Some lane)
                     (Some (coordinates lane)) (Some (KDTree.mk (coordinates lane)))).
  { unfold s. rewrite !run_delivery by discriminate. cbn [run handle]. unfold exec.
    rewrite (waypoints_cb_first init lane Hne eq_refl). reflexivity. }
  split.
  { rewrite Hs. rewrite !run_delivery by discriminate. cbn [run handle]. unfold exec.
    change (fst (pose_cb msg init))
      with (mkWaypointUpdater [] (-1) (Some msg) None None None).
    rewrite (waypoints_cb_first (mkWaypointUpdater [] (-1) (Some msg) None None None)
               lane Hne eq_refl).
    reflexivity. }
  assert (Hpts : coordinates lane <> []).
  { unfold coordinates. destruct (Lane.waypoints lane); [congruence|discriminate]. }
  assert (Hp : pose s = Some msg) by (now rewrite Hs).
  assert (Hb : base_waypoints s = Some lane) by (now rewrite Hs).
  assert (Hc : waypoints_2d s = Some (coordinates lane)) by (now rewrite Hs).
  assert (Ht : waypoint_tree s = Some (KDTree.mk (coordinates lane))) by (now rewrite Hs).
  destruct (get_closest_waypoint_idx_valid s msg _ Hp Hc Ht Hpts) as (idx & Hloc & Hidx).
  rewrite coordinates_len in Hidx.
  destruct (loop_body_run LOOKAHEAD_WPS s msg lane _ Hp Hb Hc Ht Hpts) as (c & Hloc' & Hrun).
  assert (c = idx) by congruence. subst c.
  exists idx. split; [exact Hidx|]. cbv zeta. split.
  - unfold loop_body. rewrite Hrun.
    rewrite slice_window; [reflexivity|lia|unfold LOOKAHEAD_WPS; lia].
  - rewrite length_firstn, length_skipn. unfold Py.len in Hidx. lia.
Qed.

Lemma first_tick_publishes_witness :
  Lane.waypoints scenario_path <> [] /\
  run [CurrentPose (car_at 1 0); BaseWaypoints scenario_path] init
  = run [BaseWaypoints scenario_path; CurrentPose (car_at 1 0)] init.
Proof.
  assert (H : Lane.waypoints scenario_path <> []) by discriminate.
  split; [exact H|].
  exact (proj1 (first_tick_publishes scenario_path (car_at 1 0) H)).
Defined.

(** X22. After a path has been indexed, a tick that follows the delivery of
    another path cuts its window out of the new path, at the index the car
    has on the old one: the localised index comes from the coordinates built
    at the first delivery, the points and the header from the path delivered
    last. *)
Theorem tick_after_second_delivery :
  forall (s : WaypointUpdater) (msg : PoseStamped.t) (lane lane' : Lane.t)
         (pts : list (R * R)),
    pose s = Some msg ->
    base_waypoints s = Some lane ->
    waypoints_2d s = Some pts ->
    waypoint_tree s = Some (KDTree.mk pts) ->
    pts <> [] ->
    let s' := exec (waypoints_cb lane') s in
    exists closest : Z,
      0 <= closest < Py.len pts /\
      get_closest_waypoint_idx s = (s, Ok closest) /\
      get_closest_waypoint_idx s' = (s', Ok closest) /\
      loop_body s'
      = publish (Lane.mk (Lane.header lane')
                   (Py.slice (Lane.waypoints lane') closest (closest + LOOKAHEAD_WPS))) s'.
Proof.
  intros s msg lane lane' pts Hp Hb Hc Ht Hne s'.
  assert (Hs' : s' = mkWaypointUpdater (final_waypoints_pub s) (stopline_wp_idx s) (pose s)
                       (Some lane') (waypoints_2d s) (waypoint_tree s)).
  { unfold s', exec. rewrite waypoints_cb_again; [reflexivity|].
    rewrite Hc. now apply falsy_nonempty. }
  assert (Hp' : pose s' = Some msg) by (now rewrite Hs').
  assert (Hb' : base_waypoints s' = Some lane') by (now rewrite Hs').
  assert (Hc' : waypoints_2d s' = Some pts) by (now rewrite Hs').
  assert (Ht' : waypoint_tree s' = Some (KDTree.mk pts)) by (now rewrite Hs').
  destruct (get_closest_waypoint_idx_valid s msg pts Hp Hc Ht Hne) as (idx & Hloc & Hidx).
  destruct (loop_body_run LOOKAHEAD_WPS s' msg lane' pts Hp' Hb' Hc' Ht' Hne)
    as (c & Hloc' & Hrun).
  pose proof (get_closest_waypoint_idx_run s msg pts Hp Hc Ht Hne) as E.
  pose proof (get_closest_waypoint_idx_run s' msg pts Hp' Hc' Ht' Hne) as E'.
  cbv zeta in E, E'. rewrite E in Hloc. rewrite E' in Hloc'.
  assert (c = idx) by congruence. subst c.
  exists idx. split; [exact Hidx|]. split; [now rewrite E|]. split; [now rewrite E'|].
  exact Hrun.
Qed.

Lemma tick_after_second_delivery_witness :
  pose scenario_node = Some (car_at 1 0) /\
  base_waypoints scenario_node = Some scenario_path /\
  waypoints_2d scenario_node = Some scenario_coordinates /\
  waypoint_tree scenario_node = Some (KDTree.mk scenario_coordinates) /\
  scenario_coordinates <> [] /\
  exists closest : Z,
    get_closest_waypoint_idx (exec (waypoints_cb second_path) scenario_node)
    = (exec (waypoints_cb second_path) scenario_node, Ok closest).
Proof.
  assert (Hp : pose scenario_node = Some (car_at 1 0)) by reflexivity.
  assert (Hb : base_waypoints scenario_node = Some scenario_path) by reflexivity.
  assert (Hc : waypoints_2d scenario_node = Some scenario_coordinates) by reflexivity.
  assert (Ht : waypoint_tree scenario_node = Some (KDTree.mk scenario_coordinates))
    by reflexivity.
  assert (Hn : scenario_coordinates <> []) by discriminate.
  repeat (split; [assumption|]).
  destruct (tick_after_second_delivery scenario_node (car_at 1 0) scenario_path second_path
              scenario_coordinates Hp Hb Hc Ht Hn) as (closest & _ & _ & Hloc & _).
  exists closest. exact Hloc.
Defined.

(** ** Waypoint velocity accessors *)

Lemma getitem_below_range {A : Type} (l : list A) (i : Z) :
  i < - Py.len l -> Py.getitem l i = Raise IndexError.
Proof.
  intros Hi. unfold Py.getitem. pose proof (len_nonneg l).
  destruct (i <? 0) eqn:Hneg; [|apply Z.ltb_ge in Hneg; lia].
  destruct (i + Py.len l <? 0) eqn:Hlo; [reflexivity|apply Z.ltb_ge in Hlo; lia].
Qed.

(** X23. [set_waypoint_velocity] followed by [get_waypoint_velocity]: for
    an index inside the list (a negative one counts from the end) the write
    succeeds, the waypoint at that index then has the written velocity and
    its pose as before, every waypoint behind another reference is
    unchanged, and the velocity read through any position of the list is
    the written one exactly when that position refers to the same
    waypoint.  For an index outside the list
    the write raises [IndexError] and no waypoint changes. *)
Theorem set_then_get_waypoint_velocity :
  forall (h : store) (waypoints : list ref) (waypoint : Z) (velocity : R),
    (- Py.len waypoints <= waypoint < Py.len waypoints ->
     exists (r : ref) (h' : store),
       Py.getitem waypoints waypoint = Ok r /\
       set_waypoint_velocity h waypoints waypoint velocity = (h', Ok tt) /\
       get_waypoint_velocity h' r = velocity /\
       Waypoint.pose (h' r) = Waypoint.pose (h r) /\
       (forall r' : ref, r' <> r -> h' r' = h r') /\
       (forall (j : Z) (r' : ref),
           Py.getitem waypoints j = Ok r' ->
           get_waypoint_velocity h' r'
           = if Nat.eqb r' r then velocity else get_waypoint_velocity h r')) /\
    (waypoint < - Py.len waypoints \/ Py.len waypoints <= waypoint ->
     set_waypoint_velocity h waypoints waypoint velocity = (h, Raise IndexError)).
Proof.
  intros h waypoints waypoint velocity. split.
  - intros Hin.
    assert (Hget : exists r, Py.getitem waypoints waypoint = Ok r).
    { destruct (Z_lt_le_dec waypoint 0) as [Hneg|Hpos].
      - eexists. apply (getitem_from_end waypoints waypoint O). lia.
      - eexists. apply (getitem_in_range waypoints waypoint O). lia. }
    destruct Hget as (r & Hr).
    exists r. eexists. split; [exact Hr|].
    unfold set_waypoint_velocity. rewrite Hr.
    split; [reflexivity|].
    assert (Hread : get_waypoint_velocity
                      (fun r' => if Nat.eqb r' r
                                 then Waypoint.set_linear_x (h r) velocity else h r') r
                    = velocity).
    { unfold get_waypoint_velocity. now rewrite Nat.eqb_refl. }
    split; [exact Hread|]. split; [now rewrite Nat.eqb_refl|]. split.
    + intros r' Hr'. apply Nat.eqb_neq in Hr'. now rewrite Hr'.
    + intros j r' _. unfold get_waypoint_velocity.
      destruct (Nat.eqb r' r) eqn:E; [|reflexivity].
      unfold Waypoint.linear_x, Waypoint.set_linear_x. reflexivity.
  - intros Hout. unfold set_waypoint_velocity.
    destruct Hout as [Hlow|Hhigh].
    + now rewrite getitem_below_range.
    + now rewrite getitem_out_of_range.
Qed.
